(** * Tic Tac Toe engine: Player, Gameboard and Game

    A shallow embedding of the three model classes of the Tic Tac Toe
    project (js/models/Player.js, js/models/Gameboard.js,
    js/models/Game.js) and the properties of the engine proved over it.

    Conventions of the embedding.
    - A method that mutates [this] or may throw is a computation in the
      monad [Eff S], a state transformer over the object's fields whose
      result is a [completion]: a normal value or a thrown exception.
    - A method that only reads is a function of the object.
    - The JSDoc types of the source are the types of the embedding.  Where
      a method tests its argument at run time ([typeof], [Number.isInteger],
      [Array.isArray], [includes]) the argument is a dynamically typed
      [value].
    - [new Date()] reads the clock of the world the game runs in. *)

From Stdlib Require Import ZArith Bool Lia.
From stdpp Require Import base list strings sorting gmap.

Local Open Scope Z_scope.
Local Open Scope string_scope.
Local Open Scope nat_scope.

(** ** JavaScript values *)

(** A JavaScript number, as far as the engine looks at it: an integral
    value (what [Number.isInteger] accepts; [-0] is [0]), or one of the
    numbers that are not integers. *)
Inductive number : Type :=
| NInt (z : Z)
| NFractional
| NNaN
| NInfinity (negative : bool).

(** A dynamically typed argument.  [VObject] is an object that is not an
    array; the engine never looks inside one. *)
Inductive value : Type :=
| VUndefined
| VNull
| VBool (b : bool)
| VNum (n : number)
| VStr (s : string)
| VObject.

(** [typeof v === 'string'] *)
Definition is_string (v : value) : bool :=
  match v with VStr _ => true | _ => false end.

(** The characters of a value that is a string. *)
Definition string_of (v : value) : string :=
  match v with VStr s => s | _ => "" end.

(** [Number.isInteger(v)] *)
Definition Number_isInteger (v : value) : bool :=
  match v with VNum (NInt _) => true | _ => false end.

(** The integer a value is, once [Number.isInteger] accepted it. *)
Definition integer_of (v : value) : Z :=
  match v with VNum (NInt z) => z | _ => 0%Z end.

(** ToBoolean, the test of [&&], [||], [!] and [if]. *)
Definition truthy (v : value) : bool :=
  match v with
  | VUndefined | VNull => false
  | VBool b => b
  | VNum (NInt z) => negb (z =? 0)%Z
  | VNum NNaN => false
  | VNum _ => true
  | VStr s => negb (String.eqb s "")
  | VObject => true
  end.

(** [arr.includes(v)] for an array literal of strings: only a string can
    be the same value as one of its elements. *)
Definition includes (arr : list string) (v : value) : bool :=
  match v with
  | VStr s => existsb (String.eqb s) arr
  | _ => false
  end.

(** [v === s] for a string [s]. *)
Definition strict_eq_string (v : value) (s : string) : bool :=
  match v with VStr s' => String.eqb s' s | _ => false end.

(** ** Exceptions and the effect monad *)

Inductive exn : Type :=
| Error (message : string)
| TypeError (message : string).

Inductive completion (A : Type) : Type :=
| Normal (a : A)
| Throw (e : exn).
Arguments Normal {A} a.
Arguments Throw {A} e.

Definition Eff (S A : Type) : Type := S -> completion A * S.

Definition ret {S A : Type} (a : A) : Eff S A := fun s => (Normal a, s).

Definition throw {S A : Type} (e : exn) : Eff S A := fun s => (Throw e, s).

Definition bind {S A B : Type} (m : Eff S A) (k : A -> Eff S B) : Eff S B :=
  fun s =>
    match m s with
    | (Normal a, s') => k a s'
    | (Throw e, s') => (Throw e, s')
    end.

Definition gets {S A : Type} (f : S -> A) : Eff S A := fun s => (Normal (f s), s).

Definition modify {S : Type} (f : S -> S) : Eff S unit := fun s => (Normal tt, f s).

Declare Scope eff_scope.
Delimit Scope eff_scope with eff.
Notation "x <- m ;; k" := (bind m (fun x => k))
  (at level 100, m at next level, right associativity) : eff_scope.
Notation "m ;;; k" := (bind m (fun _ => k))
  (at level 100, right associativity) : eff_scope.

(** The double quote of the messages that quote the two symbols. *)
Definition dq : string := String (Ascii.ascii_of_nat 34) EmptyString.

(** ** Gameboard (js/models/Gameboard.js) *)

Module Gameboard.

(** [_board] is the array of cells, [''] for an empty one.
    [_winningCombinations] is set once by the constructor and never
    written again: it is the constant below. *)
Record t : Type := { _board : list string }.

Definition _winningCombinations : list (nat * nat * nat) :=
  [ (0, 1, 2); (3, 4, 5); (6, 7, 8);
    (0, 3, 6); (1, 4, 7); (2, 5, 8);
    (0, 4, 8); (2, 4, 6) ].

(** [new Array(9).fill('')] *)
Definition empty_board : list string := replicate 9 "".

(** [reset()] *)
Definition reset : Eff t unit :=
  modify (fun _ => {| _board := empty_board |}).

(** [new Gameboard()] *)
Definition new : t := {| _board := empty_board |}.

(** [this._board[i]]: [None] is [undefined], past the end of the array. *)
Definition cell (gb : t) (i : nat) : option string := _board gb !! i.

(** ToBoolean of a cell read. *)
Definition cell_truthy (c : option string) : bool :=
  match c with
  | Some s => negb (String.eqb s "")
  | None => false
  end.

(** [x === y] of two cell reads. *)
Definition cell_eq (x y : option string) : bool :=
  match x, y with
  | Some s, Some s' => String.eqb s s'
  | None, None => true
  | _, _ => false
  end.

(** [getBoard()]: a copy of the array. *)
Definition getBoard (gb : t) : list string := _board gb.

(** [_isValidIndex(index)] *)
Definition _isValidIndex (index : value) : bool :=
  Number_isInteger index
  && (0 <=? integer_of index)%Z
  && (integer_of index <=? 8)%Z.

(** The array position a validated index denotes. *)
Definition position (index : value) : nat := Z.to_nat (integer_of index).

Definition invalid_index : exn := Error "Invalid board index".
Definition invalid_symbol : exn :=
  Error ("Invalid symbol. Must be " +:+ dq +:+ "X" +:+ dq +:+ " or " +:+ dq +:+ "O" +:+ dq).

(** [getCellValue(index)] *)
Definition getCellValue (index : value) : Eff t (option string) :=
  if negb (_isValidIndex index) then throw invalid_index
  else gets (fun gb => cell gb (position index)).

(** [setMark(index, symbol)].  The write happens only where the cell
    read [''], so it is always inside the array. *)
Definition setMark (index symbol : value) : Eff t bool :=
  if negb (_isValidIndex index) then throw invalid_index
  else if negb (includes ["X"; "O"] symbol) then throw invalid_symbol
  else
    match symbol with
    | VStr mark =>
        (c <- gets (fun gb => cell gb (position index)) ;;
         if cell_eq c (Some "") then
           (modify (fun gb => {| _board := <[position index := mark]> (_board gb) |}) ;;;
            ret true)
         else ret false)%eff
    | _ => throw invalid_symbol
    end.

(** [isFull()] *)
Definition isFull (gb : t) : bool :=
  forallb (fun c => negb (String.eqb c "")) (_board gb).

(** [isEmpty(index)] *)
Definition isEmpty (index : value) : Eff t bool :=
  if negb (_isValidIndex index) then throw invalid_index
  else gets (fun gb => cell_eq (cell gb (position index)) (Some "")).

(** [getEmptyPositions()]: the [map] leaves the index or [null] in each
    slot, the [filter] drops the [null]s. *)
Definition getEmptyPositions (gb : t) : list nat :=
  omap id
    (imap (fun index c => if String.eqb c "" then Some index else None)
          (_board gb)).

(** The condition of the [if] in both scans. *)
Definition lineComplete (gb : t) (combination : nat * nat * nat) : bool :=
  let '(a, b, c) := combination in
  cell_truthy (cell gb a)
  && cell_eq (cell gb a) (cell gb b)
  && cell_eq (cell gb a) (cell gb c).

(** [checkWinner()]: the [for ... of] loop, [None] is [null]. *)
Fixpoint checkWinner_loop (gb : t) (combinations : list (nat * nat * nat))
  : option string :=
  match combinations with
  | [] => None
  | combination :: rest =>
      if lineComplete gb combination then cell gb (fst (fst combination))
      else checkWinner_loop gb rest
  end.

Definition checkWinner (gb : t) : option string :=
  checkWinner_loop gb _winningCombinations.

(** [getWinningCombination()] *)
Fixpoint getWinningCombination_loop (gb : t) (combinations : list (nat * nat * nat))
  : option (nat * nat * nat) :=
  match combinations with
  | [] => None
  | combination :: rest =>
      if lineComplete gb combination then Some combination
      else getWinningCombination_loop gb rest
  end.

Definition getWinningCombination (gb : t) : option (nat * nat * nat) :=
  getWinningCombination_loop gb _winningCombinations.

(** The object [getGameState()] of the board returns. *)
Module State.
Record t : Type := {
  board : list string;
  winner : option string;
  isFull : bool;
  isGameOver : bool;
  winningCombination : option (nat * nat * nat)
}.
End State.

(** [getGameState()] *)
Definition getGameState (gb : t) : State.t :=
  let winner := checkWinner gb in
  {| State.board := getBoard gb;
     State.winner := winner;
     State.isFull := isFull gb;
     State.isGameOver := negb (bool_decide (winner = None)) || isFull gb;
     State.winningCombination := getWinningCombination gb |}.

(** The [board] property of the argument of [fromJSON]: an array of
    cells, or anything else ([VUndefined] when the property is missing). *)
Inductive board_json : Type :=
| BoardArray (cells : list string)
| BoardOther (v : value).

Record json : Type := { json_board : board_json }.

(** ToBoolean of [data.board]: an array is an object, hence truthy. *)
Definition board_truthy (b : board_json) : bool :=
  match b with
  | BoardArray _ => true
  | BoardOther v => truthy v
  end.

(** [Array.isArray(data.board)] *)
Definition Array_isArray (b : board_json) : bool :=
  match b with
  | BoardArray _ => true
  | BoardOther _ => false
  end.

(** [data.board.length === 9], read only once [data.board] is an array. *)
Definition has_length_9 (b : board_json) : bool :=
  match b with
  | BoardArray cells => length cells =? 9
  | BoardOther _ => false
  end.

(** [Gameboard.fromJSON(data)] *)
Definition fromJSON (data : json) : t :=
  let gameboard := new in
  if board_truthy (json_board data)
     && Array_isArray (json_board data)
     && has_length_9 (json_board data)
  then
    match json_board data with
    | BoardArray cells => {| _board := cells |}
    | BoardOther _ => gameboard
    end
  else gameboard.

(** [toJSON()] *)
Definition toJSON (gb : t) : json :=
  {| json_board := BoardArray (getBoard gb) |}.

End Gameboard.

(** ** Player (js/models/Player.js) *)

Module Player.

Record t : Type := { _name : value; _symbol : value }.

(** [new Player(name, symbol)]: both fields are written directly. *)
Definition new (name symbol : value) : t :=
  {| _name := name; _symbol := symbol |}.

(** The getters. *)
Definition name (p : t) : value := _name p.
Definition symbol (p : t) : value := _symbol p.

(** White space and line terminators of [String.prototype.trim], which
    are those of [\s] in a pattern.  A character of a string is a code unit
    below 256; among these the white space is tab, line feed, vertical tab,
    form feed, carriage return, space and the no-break space U+00A0 (the
    other white space of JavaScript lies above 255). *)
Definition is_white_space (c : Ascii.ascii) : bool :=
  let n := Ascii.nat_of_ascii c in
  (n =? 9) || (n =? 10) || (n =? 11) || (n =? 12) || (n =? 13) || (n =? 32)
  || (n =? 160).

Fixpoint trim_start (s : string) : string :=
  match s with
  | EmptyString => EmptyString
  | String c rest => if is_white_space c then trim_start rest else s
  end.

Definition trim (s : string) : string :=
  String.rev (trim_start (String.rev (trim_start s))).

Definition invalid_name : exn :=
  Error "Player name must be a non-empty string".
Definition invalid_symbol : exn :=
  Error ("Player symbol must be either " +:+ dq +:+ "X" +:+ dq +:+ " or " +:+ dq +:+ "O" +:+ dq).

(** [set name(newName)] *)
Definition set_name (newName : value) : Eff t unit :=
  if negb (is_string newName) || (String.length (trim (string_of newName)) =? 0)
  then throw invalid_name
  else modify (fun p => {| _name := VStr (trim (string_of newName));
                           _symbol := _symbol p |}).

(** [set symbol(newSymbol)] *)
Definition set_symbol (newSymbol : value) : Eff t unit :=
  if negb (includes ["X"; "O"] newSymbol) then throw invalid_symbol
  else modify (fun p => {| _name := _name p; _symbol := newSymbol |}).

Record json : Type := { json_name : value; json_symbol : value }.

(** [Player.fromJSON(data)] *)
Definition fromJSON (data : json) : t :=
  new (json_name data) (json_symbol data).

(** [toJSON()] *)
Definition toJSON (p : t) : json :=
  {| json_name := _name p; json_symbol := _symbol p |}.

End Player.

(** ** Game (js/models/Game.js) *)

(** The clock: the readings that successive [new Date()] calls will
    return, in milliseconds. *)
Definition Clock : Type := nat -> Z.

Module Game.

(** An entry of [_gameHistory]. *)
Record HistoryEntry : Type := {
  player : value;
  symbol : value;
  position : value;
  timestamp : Z
}.

(** The fields of a game.  [_players] is the two-element array the
    constructor builds; the two time stamps are [null] ([None]) or a
    [Date]. *)
Record t : Type := {
  _players : Player.t * Player.t;
  _gameboard : Gameboard.t;
  _currentPlayerIndex : Z;
  _gameActive : bool;
  _gameHistory : list HistoryEntry;
  _startTime : option Z;
  _endTime : option Z
}.

(** A game together with the clock of the page it runs in. *)
Record World : Type := { this : t; clock : Clock }.

(** [new Game(player1, player2, gameboard)] *)
Definition new (player1 player2 : Player.t) (gameboard : Gameboard.t) : t :=
  {| _players := (player1, player2);
     _gameboard := gameboard;
     _currentPlayerIndex := 0;
     _gameActive := false;
     _gameHistory := [];
     _startTime := None;
     _endTime := None |}.

(** *** Field assignments *)

Definition set_gameboard (gb : Gameboard.t) (g : t) : t :=
  {| _players := _players g; _gameboard := gb;
     _currentPlayerIndex := _currentPlayerIndex g;
     _gameActive := _gameActive g; _gameHistory := _gameHistory g;
     _startTime := _startTime g; _endTime := _endTime g |}.

Definition set_currentPlayerIndex (i : Z) (g : t) : t :=
  {| _players := _players g; _gameboard := _gameboard g;
     _currentPlayerIndex := i;
     _gameActive := _gameActive g; _gameHistory := _gameHistory g;
     _startTime := _startTime g; _endTime := _endTime g |}.

Definition set_gameActive (b : bool) (g : t) : t :=
  {| _players := _players g; _gameboard := _gameboard g;
     _currentPlayerIndex := _currentPlayerIndex g;
     _gameActive := b; _gameHistory := _gameHistory g;
     _startTime := _startTime g; _endTime := _endTime g |}.

Definition set_gameHistory (h : list HistoryEntry) (g : t) : t :=
  {| _players := _players g; _gameboard := _gameboard g;
     _currentPlayerIndex := _currentPlayerIndex g;
     _gameActive := _gameActive g; _gameHistory := h;
     _startTime := _startTime g; _endTime := _endTime g |}.

Definition set_startTime (d : option Z) (g : t) : t :=
  {| _players := _players g; _gameboard := _gameboard g;
     _currentPlayerIndex := _currentPlayerIndex g;
     _gameActive := _gameActive g; _gameHistory := _gameHistory g;
     _startTime := d; _endTime := _endTime g |}.

Definition set_endTime (d : option Z) (g : t) : t :=
  {| _players := _players g; _gameboard := _gameboard g;
     _currentPlayerIndex := _currentPlayerIndex g;
     _gameActive := _gameActive g; _gameHistory := _gameHistory g;
     _startTime := _startTime g; _endTime := d |}.

(** [this.field = v] *)
Definition assign (f : t -> t) : Eff World unit :=
  modify (fun w => {| this := f (this w); clock := clock w |}).

(** [this.field] *)
Definition read {A : Type} (f : t -> A) : Eff World A :=
  gets (fun w => f (this w)).

(** A method of [this._gameboard] run on the board the game holds. *)
Definition on_gameboard {A : Type} (m : Eff Gameboard.t A) : Eff World A :=
  fun w =>
    let (r, gb) := m (_gameboard (this w)) in
    (r, {| this := set_gameboard gb (this w); clock := clock w |}).

(** [new Date()]: the next reading of the clock. *)
Definition new_Date : Eff World Z :=
  fun w => (Normal (clock w 0%nat),
            {| this := this w; clock := fun n => clock w (S n) |}).

(** *** Methods *)

(** [this._players[i]]: [None] is [undefined]. *)
Definition players_at (ps : Player.t * Player.t) (i : Z) : option Player.t :=
  if (i =? 0)%Z then Some (fst ps)
  else if (i =? 1)%Z then Some (snd ps)
  else None.

(** [getCurrentPlayer()] *)
Definition getCurrentPlayer (g : t) : option Player.t :=
  players_at (_players g) (_currentPlayerIndex g).

(** [getOtherPlayer()] *)
Definition getOtherPlayer (g : t) : option Player.t :=
  let otherIndex := if (_currentPlayerIndex g =? 0)%Z then 1%Z else 0%Z in
  players_at (_players g) otherIndex.

(** [getPlayers()] *)
Definition getPlayers (g : t) : Player.t * Player.t := _players g.

(** [isGameActive()] *)
Definition isGameActive (g : t) : bool := _gameActive g.

(** [startGame()] *)
Definition startGame : Eff World unit :=
  (assign (set_gameActive true) ;;;
   assign (set_currentPlayerIndex 0) ;;;
   assign (set_gameHistory []) ;;;
   now <- new_Date ;;
   assign (set_startTime (Some now)) ;;;
   assign (set_endTime None) ;;;
   on_gameboard Gameboard.reset)%eff.

(** The snapshot [getGameState()] returns: the board's own state, spread,
    and the fields of the game.  In [currentPlayer] and [winningPlayer],
    [None] is [null] or [undefined]. *)
Module State.
Record t : Type := {
  boardState : Gameboard.State.t;
  currentPlayer : option Player.t;
  players : Player.t * Player.t;
  isGameActive : bool;
  winningPlayer : option Player.t;
  gameHistory : list HistoryEntry;
  startTime : option Z;
  endTime : option Z;
  gameDuration : option Z
}.
End State.

(** [player.symbol === winner], where [winner] is a cell or [null]. *)
Definition symbol_is (winner : option string) (p : Player.t) : bool :=
  match winner with
  | Some mark => strict_eq_string (Player.symbol p) mark
  | None => match Player.symbol p with VNull => true | _ => false end
  end.

(** [getGameState()] *)
Definition getGameState (g : t) : State.t :=
  let boardState := Gameboard.getGameState (_gameboard g) in
  let winner := Gameboard.State.winner boardState in
  let winningPlayer :=
    if Gameboard.cell_truthy winner
    then List.find (symbol_is winner) [fst (_players g); snd (_players g)]
    else None in
  {| State.boardState := boardState;
     State.currentPlayer := getCurrentPlayer g;
     State.players := getPlayers g;
     State.isGameActive := _gameActive g;
     State.winningPlayer := winningPlayer;
     State.gameHistory := _gameHistory g;
     State.startTime := _startTime g;
     State.endTime := _endTime g;
     State.gameDuration :=
       match _endTime g, _startTime g with
       | Some e, Some s => Some (e - s)%Z
       | _, _ => None
       end |}.

(** The object [makeMove] returns; [error] is absent ([None]) on
    success. *)
Record MoveResult : Type := {
  success : bool;
  error : option string;
  gameState : State.t
}.

(** [currentPlayer.symbol] and [currentPlayer.name]: reading a property
    of [undefined] throws a [TypeError]. *)
Definition property_of {A : Type} (o : option Player.t) (f : Player.t -> A)
  : Eff World A :=
  match o with
  | Some p => ret (f p)
  | None => throw (TypeError "Cannot read properties of undefined")
  end.

(** [makeMove(index)] *)
Definition makeMove (index : value) : Eff World MoveResult :=
  (active <- read _gameActive ;;
   if negb active then
     gs <- read getGameState ;;
     ret {| success := false; error := Some "Game is not active"; gameState := gs |}
   else
     currentPlayer <- read getCurrentPlayer ;;
     sym <- property_of currentPlayer Player.symbol ;;
     moveSuccessful <- on_gameboard (Gameboard.setMark index sym) ;;
     if negb moveSuccessful then
       gs <- read getGameState ;;
       ret {| success := false; error := Some "Position already occupied";
              gameState := gs |}
     else
       name <- property_of currentPlayer Player.name ;;
       sym' <- property_of currentPlayer Player.symbol ;;
       now <- new_Date ;;
       history <- read _gameHistory ;;
       assign (set_gameHistory
                 (history ++ [{| player := name; symbol := sym';
                                 position := index; timestamp := now |}])) ;;;
       winner <- read (fun g => Gameboard.checkWinner (_gameboard g)) ;;
       isFull <- read (fun g => Gameboard.isFull (_gameboard g)) ;;
       (if Gameboard.cell_truthy winner || isFull then
          assign (set_gameActive false) ;;;
          now' <- new_Date ;;
          assign (set_endTime (Some now'))
        else
          i <- read _currentPlayerIndex ;;
          assign (set_currentPlayerIndex (if (i =? 0)%Z then 1%Z else 0%Z))) ;;;
       gs <- read getGameState ;;
       ret {| success := true; error := None; gameState := gs |})%eff.

(** [resetGame()] *)
Definition resetGame : Eff World unit :=
  (assign (set_currentPlayerIndex 0) ;;;
   assign (set_gameActive false) ;;;
   assign (set_gameHistory []) ;;;
   assign (set_startTime None) ;;;
   assign (set_endTime None) ;;;
   on_gameboard Gameboard.reset)%eff.

(** [restartGame()] *)
Definition restartGame : Eff World unit :=
  (assign (set_currentPlayerIndex 0) ;;;
   assign (set_gameHistory []) ;;;
   on_gameboard Gameboard.reset ;;;
   startGame)%eff.

(** [getPossibleMoves()] *)
Definition getPossibleMoves (g : t) : list nat :=
  if negb (_gameActive g) then []
  else Gameboard.getEmptyPositions (_gameboard g).

(** The plain object [toJSON()] returns and [fromJSON] reads.  A property
    [fromJSON] guards with [||] or [? :] may be missing or [null]:
    [None]. *)
Record json : Type := {
  json_players : Player.json * Player.json;
  json_gameboard : Gameboard.json;
  json_currentPlayerIndex : option Z;
  json_gameActive : option bool;
  json_gameHistory : option (list HistoryEntry);
  json_startTime : option Z;
  json_endTime : option Z
}.

(** [toJSON()] *)
Definition toJSON (g : t) : json :=
  {| json_players := (Player.toJSON (fst (_players g)), Player.toJSON (snd (_players g)));
     json_gameboard := Gameboard.toJSON (_gameboard g);
     json_currentPlayerIndex := Some (_currentPlayerIndex g);
     json_gameActive := Some (_gameActive g);
     json_gameHistory := Some (_gameHistory g);
     json_startTime := _startTime g;
     json_endTime := _endTime g |}.

(** [x || 0] of a number that may be missing. *)
Definition or_zero (x : option Z) : Z :=
  match x with
  | Some z => if (z =? 0)%Z then 0%Z else z
  | None => 0%Z
  end.

(** [x || false] of a boolean that may be missing. *)
Definition or_false (x : option bool) : bool :=
  match x with
  | Some b => if b then b else false
  | None => false
  end.

(** [x || []] of an array that may be missing; an array is truthy. *)
Definition or_empty {A : Type} (x : option (list A)) : list A :=
  match x with
  | Some l => l
  | None => []
  end.

(** [x ? new Date(x) : null]; copying a [Date] keeps its time value. *)
Definition date_or_null (x : option Z) : option Z :=
  match x with
  | Some d => Some d
  | None => None
  end.

(** [Game.fromJSON(data, PlayerClass, GameboardClass)]; of the two
    classes only the static [fromJSON] is used. *)
Definition fromJSON (data : json)
    (PlayerClass_fromJSON : Player.json -> Player.t)
    (GameboardClass_fromJSON : Gameboard.json -> Gameboard.t) : t :=
  let players :=
    (PlayerClass_fromJSON (fst (json_players data)),
     PlayerClass_fromJSON (snd (json_players data))) in
  let gameboard := GameboardClass_fromJSON (json_gameboard data) in
  let game := new (fst players) (snd players) gameboard in
  let game := set_currentPlayerIndex (or_zero (json_currentPlayerIndex data)) game in
  let game := set_gameActive (or_false (json_gameActive data)) game in
  let game := set_gameHistory (or_empty (json_gameHistory data)) game in
  let game := set_startTime (date_or_null (json_startTime data)) game in
  let game := set_endTime (date_or_null (json_endTime data)) game in
  game.

(** The object [validateMove] returns; [error] is absent ([None]) when
    the move is valid. *)
Module Validation.
Record t : Type := { valid : bool; error : option string }.
End Validation.

(** [validateMove(index)] *)
Definition validateMove (index : value) : Eff World Validation.t :=
  (active <- read _gameActive ;;
   if negb active then
     ret {| Validation.valid := false; Validation.error := Some "Game is not active" |}
   else if negb (Number_isInteger index)
           || (integer_of index <? 0)%Z
           || (8 <? integer_of index)%Z then
     ret {| Validation.valid := false;
            Validation.error := Some "Invalid board position" |}
   else
     empty <- on_gameboard (Gameboard.isEmpty index) ;;
     if negb empty then
       ret {| Validation.valid := false;
              Validation.error := Some "Position already occupied" |}
     else ret {| Validation.valid := true; Validation.error := None |})%eff.

(** The object [getGameStats()] returns. *)
Module Stats.
Record t : Type := {
  totalMoves : nat;
  gameHistory : list HistoryEntry;
  duration : option Z;
  isComplete : bool
}.
End Stats.

(** [getGameStats()] *)
Definition getGameStats (g : t) : Stats.t :=
  {| Stats.totalMoves := length (_gameHistory g);
     Stats.gameHistory := _gameHistory g;
     Stats.duration :=
       match _endTime g, _startTime g with
       | Some e, Some s => Some (e - s)%Z
       | _, _ => None
       end;
     Stats.isComplete := negb (_gameActive g) && (0 <? length (_gameHistory g)) |}.

End Game.

(** ** ValidationUtils (js/utils/ValidationUtils.js) *)

Module ValidationUtils.

(** The object the validators return. *)
Module Result.
Record t : Type := { valid : bool; errors : list string }.
End Result.

(** The object [validatePlayerName] returns. *)
Module NameResult.
Record t : Type := { valid : bool; errors : list string; sanitized : string }.
End NameResult.

(** [errors.push(e)] *)
Definition push (errors : list string) (e : string) : list string :=
  (errors ++ [e])%list.

(** [validatePlayerSymbol(symbol)] *)
Definition validatePlayerSymbol (symbol : value) : Result.t :=
  let validSymbols := ["X"; "O"] in
  let errors :=
    if negb (includes validSymbols symbol)
    then push [] ("Symbol must be either " +:+ dq +:+ "X" +:+ dq +:+ " or "
                  +:+ dq +:+ "O" +:+ dq)
    else [] in
  {| Result.valid := length errors =? 0; Result.errors := errors |}.

(** [validateBoardPosition(position)] *)
Definition validateBoardPosition (position : value) : Result.t :=
  let errors :=
    if negb (Number_isInteger position)
    then push [] "Position must be an integer"
    else if (integer_of position <? 0)%Z || (8 <? integer_of position)%Z
    then push [] "Position must be between 0 and 8"
    else [] in
  {| Result.valid := length errors =? 0; Result.errors := errors |}.

(** The character class [[a-zA-Z0-9\s\-_'.]] of the name pattern. *)
Definition name_char (c : Ascii.ascii) : bool :=
  let n := Ascii.nat_of_ascii c in
  ((97 <=? n) && (n <=? 122))
  || ((65 <=? n) && (n <=? 90))
  || ((48 <=? n) && (n <=? 57))
  || Player.is_white_space c
  || (n =? 45) || (n =? 95) || (n =? 39) || (n =? 46).

(** [/^[a-zA-Z0-9\s\-_'.]+$/.test(s)]: one character or more, all of the
    class. *)
Fixpoint all_name_chars (s : string) : bool :=
  match s with
  | EmptyString => true
  | String c rest => name_char c && all_name_chars rest
  end.

Definition name_pattern (s : string) : bool :=
  negb (String.eqb s "") && all_name_chars s.

(** [c.toLowerCase()] of a code unit below 256: the letters A to Z and
    the capital letters U+00C0 to U+00DE, the sign U+00D7 apart, move up
    by 32. *)
Definition lower_char (c : Ascii.ascii) : Ascii.ascii :=
  let n := Ascii.nat_of_ascii c in
  if ((65 <=? n) && (n <=? 90))
     || ((192 <=? n) && (n <=? 222) && negb (n =? 215))
  then Ascii.ascii_of_nat (n + 32) else c.

(** [s.toLowerCase()] *)
Fixpoint toLowerCase (s : string) : string :=
  match s with
  | EmptyString => EmptyString
  | String c rest => String (lower_char c) (toLowerCase rest)
  end.

(** [text.includes(word)] for two strings. *)
Fixpoint string_includes (text word : string) : bool :=
  String.prefix word text
  || match text with
     | EmptyString => false
     | String _ rest => string_includes rest word
     end.

(** [_containsInappropriateContent(text)] *)
Definition _containsInappropriateContent (text : string) : bool :=
  let inappropriateWords := ["admin"; "root"; "system"; "null"; "undefined"] in
  let lowerText := toLowerCase text in
  existsb (fun word => string_includes lowerText word) inappropriateWords.

(** [validatePlayerName(name)] *)
Definition validatePlayerName (name : value) : NameResult.t :=
  let errors :=
    if negb (is_string name) then push [] "Name must be a string"
    else
      let trimmedName := Player.trim (string_of name) in
      let errors :=
        if String.length trimmedName =? 0
        then push [] "Name cannot be empty"
        else if String.length trimmedName <? 2
        then push [] "Name must be at least 2 characters long"
        else if 20 <? String.length trimmedName
        then push [] "Name cannot be longer than 20 characters"
        else [] in
      let errors :=
        if negb (name_pattern trimmedName)
        then push errors "Name contains invalid characters"
        else errors in
      let errors :=
        if _containsInappropriateContent trimmedName
        then push errors "Name contains inappropriate content"
        else errors in
      errors in
  {| NameResult.valid := length errors =? 0;
     NameResult.errors := errors;
     NameResult.sanitized :=
       if is_string name then Player.trim (string_of name) else "" |}.

(** [s.replace(/[<>]/g, '')] *)
Fixpoint remove_angle_brackets (s : string) : string :=
  match s with
  | EmptyString => EmptyString
  | String c rest =>
      let n := Ascii.nat_of_ascii c in
      if (n =? 60) || (n =? 62) then remove_angle_brackets rest
      else String c (remove_angle_brackets rest)
  end.

(** [s.replace(/\s+/g, ' ')]: every run of white space becomes one space;
    [in_run] tells that the character before was white space. *)
Fixpoint normalize_white_space (in_run : bool) (s : string) : string :=
  match s with
  | EmptyString => EmptyString
  | String c rest =>
      if Player.is_white_space c then
        if in_run then normalize_white_space true rest
        else String (Ascii.ascii_of_nat 32) (normalize_white_space true rest)
      else String c (normalize_white_space false rest)
  end.

(** [sanitizeInput(input, maxLength)], [maxLength] a count of characters
    (50 when it is left out). *)
Definition sanitizeInput (input : value) (maxLength : nat) : string :=
  if negb (is_string input) then ""
  else
    normalize_white_space false
      (remove_angle_brackets
         (String.substring 0 maxLength (Player.trim (string_of input)))).

End ValidationUtils.

(** ** Book (js/models/Book.js) *)

Module Book.

(** The fields of a book.  The constructor, which draws the [id] and reads
    the clock, is not part of this development: a book is taken as it
    stands. *)
Record t : Type := {
  id : value;
  title : value;
  author : value;
  pages : value;
  read : value;
  genre : value;
  rating : value;
  dateAdded : Z
}.

(** [toggleReadStatus()]: [this.read = !this.read] *)
Definition toggleReadStatus : Eff t unit :=
  modify (fun b =>
    {| id := id b; title := title b; author := author b; pages := pages b;
       read := VBool (negb (truthy (read b)));
       genre := genre b; rating := rating b; dateAdded := dateAdded b |}).

(** [newRating !== null] *)
Definition is_not_null (v : value) : bool :=
  match v with VNull => false | _ => true end.

(** [updateRating(newRating)] *)
Definition updateRating (newRating : value) : Eff t unit :=
  if is_not_null newRating
     && (negb (Number_isInteger newRating)
         || (integer_of newRating <? 1)%Z
         || (5 <? integer_of newRating)%Z)
  then throw (Error "Rating must be null or an integer between 1 and 5")
  else
    modify (fun b =>
      {| id := id b; title := title b; author := author b; pages := pages b;
         read := read b; genre := genre b; rating := newRating;
         dateAdded := dateAdded b |}).

(** [updateGenre(newGenre)]: [this.genre = newGenre || ''] *)
Definition updateGenre (newGenre : value) : Eff t unit :=
  modify (fun b =>
    {| id := id b; title := title b; author := author b; pages := pages b;
       read := read b;
       genre := if truthy newGenre then newGenre else VStr "";
       rating := rating b; dateAdded := dateAdded b |}).

End Book.

(** ** EventManager (js/utils/EventManager.js) *)

Module EventManager.

(** A registered listener: the callback, a function object known by its
    reference, and the context. *)
Record Listener : Type := { callback : nat; context : value }.

(** [_listeners]: the Map from event names to arrays of listeners. *)
Record t : Type := { _listeners : gmap string (list Listener) }.

(** What is passed as callback: a function, or some other value. *)
Inductive callback_arg : Type :=
| Function (ref : nat)
| NotFunction (v : value).

(** [new EventManager()] *)
Definition new : t := {| _listeners := ∅ |}.

(** [this._listeners.get(event)] where the key is known to be there. *)
Definition get (event : string) (m : t) : list Listener :=
  default [] (_listeners m !! event).

(** The default of the parameter [context = null]: an argument that is
    left out, or is [undefined], is [null]. *)
Definition or_null (context : value) : value :=
  match context with
  | VUndefined => VNull
  | _ => context
  end.

(** [on(event, callback, context = null)] *)
Definition on (event : string) (callback : callback_arg) (context : value) : Eff t unit :=
  let context := or_null context in
  match callback with
  | NotFunction _ => throw (Error "Callback must be a function")
  | Function f =>
      (has <- gets (fun m => bool_decide (is_Some (_listeners m !! event))) ;;
       (if negb has
        then modify (fun m => {| _listeners := <[event := []]> (_listeners m) |})
        else ret tt) ;;;
       modify (fun m =>
         {| _listeners :=
              <[event := (get event m ++ [{| callback := f; context := context |}])%list]>
                (_listeners m) |}))%eff
  end.

(** [listener.callback === callback] *)
Definition is_callback (callback : callback_arg) (listener : Listener) : bool :=
  match callback with
  | Function f => EventManager.callback listener =? f
  | NotFunction _ => false
  end.

(** [listeners.findIndex(test)]: [None] is [-1]. *)
Fixpoint findIndex {A : Type} (test : A → bool) (l : list A) : option nat :=
  match l with
  | [] => None
  | x :: rest => if test x then Some 0 else S <$> findIndex test rest
  end.

(** [off(event, callback)]; [splice(index, 1)] deletes in place. *)
Definition off (event : string) (callback : callback_arg) : Eff t unit :=
  (has <- gets (fun m => bool_decide (is_Some (_listeners m !! event))) ;;
   if negb has then ret tt
   else
     listeners <- gets (get event) ;;
     let listeners :=
       match findIndex (is_callback callback) listeners with
       | Some index => delete index listeners
       | None => listeners
       end in
     modify (fun m => {| _listeners := <[event := listeners]> (_listeners m) |}) ;;;
     if length listeners =? 0
     then modify (fun m => {| _listeners := delete event (_listeners m) |})
     else ret tt)%eff.

(** [getListenerCount(event)] *)
Definition getListenerCount (event : string) (m : t) : nat :=
  if bool_decide (is_Some (_listeners m !! event)) then length (get event m) else 0.

(** [hasListeners(event)] *)
Definition hasListeners (event : string) (m : t) : bool :=
  bool_decide (is_Some (_listeners m !! event)) && (0 <? length (get event m)).

(** [removeAllListeners(event)]: [None] is a call without argument. *)
Definition removeAllListeners (event : option string) : Eff t unit :=
  match event with
  | Some name =>
      if negb (String.eqb name "")
      then modify (fun m => {| _listeners := delete name (_listeners m) |})
      else modify (fun _ => {| _listeners := ∅ |})
  | None => modify (fun _ => {| _listeners := ∅ |})
  end.

End EventManager.

(** * Vocabulary of the statements *)

(** ** The grid and its lines *)

Module Grid.
Import Gameboard.

(** The grid is row-major: the cell in row [r] and column [c]. *)
Definition at_rc (r c : nat) : nat := 3 * r + c.

Definition row (r : nat) : nat * nat * nat := (at_rc r 0, at_rc r 1, at_rc r 2).
Definition column (c : nat) : nat * nat * nat := (at_rc 0 c, at_rc 1 c, at_rc 2 c).
Definition diagonals : list (nat * nat * nat) :=
  [ (at_rc 0 0, at_rc 1 1, at_rc 2 2); (at_rc 0 2, at_rc 1 1, at_rc 2 0) ].

(** The eight lines of the grid: three rows, three columns, two
    diagonals. *)
Definition lines : list (nat * nat * nat) :=
  (row <$> [0; 1; 2]) ++ (column <$> [0; 1; 2]) ++ diagonals.

(** All three cells of a line hold the same mark and none is empty. *)
Definition uniform (gb : t) (line : nat * nat * nat) (mark : string) : Prop :=
  mark ≠ ""
  ∧ cell gb line.1.1 = Some mark
  ∧ cell gb line.1.2 = Some mark
  ∧ cell gb line.2 = Some mark.

(** Some line of the grid is uniform. *)
Definition won (gb : t) : Prop :=
  ∃ line mark, line ∈ lines ∧ uniform gb line mark.

(** The cell holds a mark. *)
Definition occupied (gb : t) (i : nat) : bool := cell_truthy (cell gb i).

(** The number of empty cells of an array of cells. *)
Fixpoint count_empty (cells : list string) : nat :=
  match cells with
  | [] => 0
  | c :: rest => (if String.eqb c "" then 1 else 0) + count_empty rest
  end.

End Grid.

(** ** Calls of the methods of a game *)

Module Moves.
Import Game.

(** The entry [makeMove] pushes for a move of player [p]. *)
Definition entry_of (p : Player.t) (index : value) (now : Z) : HistoryEntry :=
  {| player := Player.name p; symbol := Player.symbol p;
     position := index; timestamp := now |}.

(** The game once the mark is on the board and the move is recorded. *)
Definition mark_placed (index : value) (p : Player.t) (mark : string) (w : World) : t :=
  set_gameHistory
    (_gameHistory (this w) ++ [entry_of p index (clock w 0)])
    (set_gameboard
       {| Gameboard._board :=
            <[Gameboard.position index := mark]> (Gameboard._board (_gameboard (this w))) |}
       (this w)).

(** The test [winner || isFull] of [makeMove]. *)
Definition terminal (g : t) : bool :=
  Gameboard.cell_truthy (Gameboard.checkWinner (_gameboard g))
  || Gameboard.isFull (_gameboard g).

(** The two shapes of the result of [makeMove]. *)
Definition failure (message : string) (g : t) : MoveResult :=
  {| success := false; error := Some message; gameState := getGameState g |}.

Definition accepted_move (g : t) : MoveResult :=
  {| success := true; error := None; gameState := getGameState g |}.

Definition undefined_player : exn :=
  TypeError "Cannot read properties of undefined".

(** The ways a call of [makeMove] ends: the completion and the world it
    leaves. *)
Inductive move_step (w : World) (index : value)
  : completion MoveResult → World → Prop :=
| step_inactive :
    _gameActive (this w) = false →
    move_step w index (Normal (failure "Game is not active" (this w))) w
| step_no_player :
    _gameActive (this w) = true →
    getCurrentPlayer (this w) = None →
    move_step w index (Throw undefined_player) w
| step_invalid_index p :
    _gameActive (this w) = true →
    getCurrentPlayer (this w) = Some p →
    Gameboard._isValidIndex index = false →
    move_step w index (Throw Gameboard.invalid_index) w
| step_invalid_symbol p :
    _gameActive (this w) = true →
    getCurrentPlayer (this w) = Some p →
    Gameboard._isValidIndex index = true →
    includes ["X"; "O"] (Player.symbol p) = false →
    move_step w index (Throw Gameboard.invalid_symbol) w
| step_occupied p :
    _gameActive (this w) = true →
    getCurrentPlayer (this w) = Some p →
    Gameboard._isValidIndex index = true →
    includes ["X"; "O"] (Player.symbol p) = true →
    Gameboard.cell (_gameboard (this w)) (Gameboard.position index) ≠ Some "" →
    move_step w index (Normal (failure "Position already occupied" (this w))) w
| step_last p mark g :
    _gameActive (this w) = true →
    getCurrentPlayer (this w) = Some p →
    Gameboard._isValidIndex index = true →
    Player.symbol p = VStr mark →
    mark = "X" ∨ mark = "O" →
    Gameboard.cell (_gameboard (this w)) (Gameboard.position index) = Some "" →
    terminal (mark_placed index p mark w) = true →
    g = set_endTime (Some (clock w 1))
          (set_gameActive false (mark_placed index p mark w)) →
    move_step w index (Normal (accepted_move g))
              {| this := g; clock := fun n => clock w (S (S n)) |}
| step_next p mark g :
    _gameActive (this w) = true →
    getCurrentPlayer (this w) = Some p →
    Gameboard._isValidIndex index = true →
    Player.symbol p = VStr mark →
    mark = "X" ∨ mark = "O" →
    Gameboard.cell (_gameboard (this w)) (Gameboard.position index) = Some "" →
    terminal (mark_placed index p mark w) = false →
    g = set_currentPlayerIndex
          (if (_currentPlayerIndex (this w) =? 0)%Z then 1%Z else 0%Z)
          (mark_placed index p mark w) →
    move_step w index (Normal (accepted_move g))
              {| this := g; clock := fun n => clock w (S n) |}.

(** The world a call leaves, whether it returned or threw: a caller that
    catches the exception goes on with the same game. *)
Definition call {A : Type} (m : Eff World A) (w : World) : World := (m w).2.

(** A sequence of [makeMove] calls. *)
Definition play (indices : list value) (w : World) : World :=
  foldl (fun w index => call (makeMove index) w) w indices.

(** The methods of a game that change it. *)
Inductive method : Type :=
| StartGame
| MakeMove (index : value)
| ResetGame
| RestartGame.

Definition invoke (m : method) : World → World :=
  match m with
  | StartGame => call startGame
  | MakeMove index => call (makeMove index)
  | ResetGame => call resetGame
  | RestartGame => call restartGame
  end.

(** A sequence of calls of any of them. *)
Definition run (calls : list method) (w : World) : World :=
  foldl (fun w m => invoke m w) w calls.

(** The move was accepted: [makeMove] returned with [success: true]. *)
Definition accepted (r : completion MoveResult) : bool :=
  match r with
  | Normal result => success result
  | Throw _ => false
  end.

(** The snapshot a call of [makeMove] returned, if it returned. *)
Definition snapshot (r : completion MoveResult) : option State.t :=
  match r with
  | Normal result => Some (gameState result)
  | Throw _ => None
  end.

(** The player to move exists and holds one of the two marks, as the
    data model requires of the players of a game. *)
Definition mover_has_mark (g : t) : bool :=
  match getCurrentPlayer g with
  | Some p => includes ["X"; "O"] (Player.symbol p)
  | None => false
  end.

(** The entry was recorded for player [p]. *)
Definition made_by (e : HistoryEntry) (p : Player.t) : Prop :=
  player e = Player.name p ∧ symbol e = Player.symbol p.

(** The moves of the history were made by the two players in turn,
    the first player first. *)
Definition alternating (g : t) : Prop :=
  ∀ k e, _gameHistory g !! k = Some e →
         ∃ p, players_at (_players g) (Z.of_nat k mod 2) = Some p ∧ made_by e p.

(** What [makeMove] lets a caller observe: the success flag and the
    error, or the exception, and of the game left behind the board, the
    number of recorded moves, the index of the player to move and the
    active flag. *)
Definition outcome (r : completion MoveResult) : (bool * option string) + exn :=
  match r with
  | Normal result => inl (success result, error result)
  | Throw e => inr e
  end.

Definition observe (rw : completion MoveResult * World)
  : ((bool * option string) + exn) * list string * nat * Z * bool :=
  (outcome rw.1,
   Gameboard._board (_gameboard (this rw.2)),
   length (_gameHistory (this rw.2)),
   _currentPlayerIndex (this rw.2),
   _gameActive (this rw.2)).

(** The turn is kept: the index of the player to move is 0 or 1, while
    the game is active it is the parity of the number of recorded moves,
    and the recorded moves alternate. *)
Definition in_turn (g : t) : Prop :=
  (_currentPlayerIndex g = 0 ∨ _currentPlayerIndex g = 1)%Z
  ∧ (_gameActive g = true →
     _currentPlayerIndex g = (Z.of_nat (length (_gameHistory g)) mod 2)%Z)
  ∧ alternating g.

(** Every cell is either empty or accounted for by a recorded move. *)
Definition counted (g : t) : Prop :=
  length (_gameHistory g) + Grid.count_empty (Gameboard._board (_gameboard g)) = 9.

(** The board has its nine cells. *)
Definition nine_cells (g : t) : Prop :=
  length (Gameboard._board (_gameboard g)) = 9.

(** How a game comes to be: built by [new Game] on two players and a
    board of the [Gameboard] class (every such board is what
    [Gameboard.fromJSON] returns on some data, the board of
    [new Gameboard()] on data without a board), or rebuilt by
    [Game.fromJSON]. *)
Inductive origin : Type :=
| Constructed (player1 player2 : Player.t) (board : Gameboard.json)
| Loaded (data : json).

Definition built (o : origin) : t :=
  match o with
  | Constructed player1 player2 board =>
      Game.new player1 player2 (Gameboard.fromJSON board)
  | Loaded data => fromJSON data Player.fromJSON Gameboard.fromJSON
  end.

(** The game rebuilt from its own JSON. *)
Definition reloaded (g : t) : t :=
  fromJSON (toJSON g) Player.fromJSON Gameboard.fromJSON.

End Moves.

(** ** A concrete game *)

Module Scenario.
Import Game Moves.

Definition alice : Player.t := Player.new (VStr "Alice") (VStr "X").
Definition bob : Player.t := Player.new (VStr "Bob") (VStr "O").

Definition clock0 : Clock := fun n => (1000 + Z.of_nat n)%Z.

(** [new Game(alice, bob, new Gameboard())], not started. *)
Definition fresh : World :=
  {| this := Game.new alice bob Gameboard.new; clock := clock0 |}.

(** After [startGame()]. *)
Definition started : World := call startGame fresh.

Definition at_index (z : Z) : value := VNum (NInt z).

(** Alice took cell 0; it is Bob's turn. *)
Definition one_move : World := play [at_index 0] started.

(** X on 0 and 1, O on 3 and 4; Alice to move. *)
Definition before_win : World :=
  play (at_index <$> [0; 3; 1; 4]%Z) started.

(** Alice completed the top row. *)
Definition won : World := play [at_index 2] before_win.

(** [new Player('Zed', 'Z')]: the constructor takes a symbol that is not a
    mark. *)
Definition zed : Player.t := Player.new (VStr "Zed") (VStr "Z").

(** Alice plays Zed: the game was started, Alice took cell 0, and it is
    Zed's turn. *)
Definition zed_to_move : World :=
  play [at_index 0]
    (call startGame {| this := Game.new alice zed Gameboard.new; clock := clock0 |}).

End Scenario.

(** ** Calls of the methods of a board *)

Module Marks.
Import Gameboard.

(** The board a call leaves, whether it returned or threw. *)
Definition after {A : Type} (m : Eff t A) (gb : t) : t := (m gb).2.

(** A sequence of [setMark] calls, each with its index and symbol. *)
Definition place (moves : list (value * value)) (gb : t) : t :=
  foldl (fun gb move => after (setMark move.1 move.2) gb) gb moves.

(** The methods of a board that change it. *)
Inductive method : Type :=
| SetMark (index symbol : value)
| Reset.

Definition invoke (m : method) : t → t :=
  match m with
  | SetMark index symbol => after (setMark index symbol)
  | Reset => after reset
  end.

Definition run (calls : list method) (gb : t) : t :=
  foldl (fun gb m => invoke m gb) gb calls.

(** What a cell of a board may hold. *)
Definition is_cell (c : string) : Prop := c = "" ∨ c = "X" ∨ c = "O".

(** Nine cells, each empty or one of the two marks. *)
Definition well_formed (gb : t) : Prop :=
  length (_board gb) = 9 ∧ Forall is_cell (_board gb).

(** The number of cells that hold [mark]. *)
Fixpoint count_mark (mark : string) (cells : list string) : nat :=
  match cells with
  | [] => 0
  | c :: rest => (if String.eqb c mark then 1 else 0) + count_mark mark rest
  end.

(** The indices, counted from [k], of the empty cells of an array. *)
Definition positions_from (k : nat) (cells : list string) : list nat :=
  omap id (imap (fun i c => if String.eqb c "" then Some (k + i) else None) cells).

(** A completion is an exception. *)
Definition threw {A : Type} (r : completion A) : bool :=
  match r with
  | Normal _ => false
  | Throw _ => true
  end.

End Marks.

(** ** The course of a game *)

Module Course.
Import Game Moves.

(** The game after [startGame()] and a sequence of [makeMove] calls. *)
Definition played (w0 : World) (indices : list value) : World :=
  play indices (call startGame w0).

(** Every recorded move is on the board: its position is an index of the
    board and the cell there holds its symbol, one of the two marks. *)
Definition on_board (g : t) (e : HistoryEntry) : Prop :=
  ∃ mark, symbol e = VStr mark
          ∧ (mark = "X" ∨ mark = "O")
          ∧ Gameboard._isValidIndex (position e) = true
          ∧ Gameboard.cell (_gameboard g) (Gameboard.position (position e)) = Some mark.

Definition recorded (g : t) : Prop :=
  Forall (on_board g) (_gameHistory g)
  ∧ NoDup ((fun e => Gameboard.position (position e)) <$> _gameHistory g).

(** The game is active exactly while the board has no winner and an
    empty cell. *)
Definition open (g : t) : Prop := _gameActive g = negb (terminal g).

(** A winner is the mark of the last recorded move. *)
Definition won_by_last (g : t) : Prop :=
  ∀ mark, Gameboard.checkWinner (_gameboard g) = Some mark →
          ∃ e, last (_gameHistory g) = Some e ∧ symbol e = VStr mark.

(** The time stamps of a game that was started: the start is set, the end
    is set exactly when the game is over, and a game that is over has a
    recorded move. *)
Definition stamped (g : t) : Prop :=
  is_Some (_startTime g)
  ∧ (_gameActive g = true → _endTime g = None)
  ∧ (_gameActive g = false → is_Some (_endTime g) ∧ _gameHistory g ≠ []).

(** The clock never runs backwards. *)
Definition monotone (c : Clock) : Prop := ∀ n, (c n <= c (S n))%Z.

(** The recorded times are in order: start, then the moves one after the
    other, then the end, and none is later than the next reading of the
    clock. *)
Definition in_order (w : World) : Prop :=
  monotone (clock w)
  ∧ ∃ start, _startTime (this w) = Some start
      ∧ (start <= clock w 0%nat)%Z
      ∧ StronglySorted Z.le (start :: (timestamp <$> _gameHistory (this w)))
      ∧ Forall (fun e => (timestamp e <= clock w 0%nat)%Z) (_gameHistory (this w))
      ∧ (∀ e, _endTime (this w) = Some e →
              (start <= e)%Z
              ∧ (e <= clock w 0%nat)%Z
              ∧ Forall (fun x => (timestamp x <= e)%Z) (_gameHistory (this w))).

(** Player 1 holds X and player 2 holds O. *)
Definition x_then_o (g : t) : Prop :=
  Player.symbol (_players g).1 = VStr "X" ∧ Player.symbol (_players g).2 = VStr "O".

(** The marks on the board are those of alternate moves, X first: after
    [2k] moves [k] of each, after [2k+1] moves one X more. *)
Definition balanced (g : t) : Prop :=
  let n := length (_gameHistory g) in
  let xs := Marks.count_mark "X" (Gameboard._board (_gameboard g)) in
  let os := Marks.count_mark "O" (Gameboard._board (_gameboard g)) in
  ∃ k, (n = 2 * k ∧ xs = k ∧ os = k) ∨ (n = 2 * k + 1 ∧ xs = k + 1 ∧ os = k).

(** What [validateMove] answered, if it returned. *)
Definition verdict (r : completion Validation.t) : option bool :=
  match r with
  | Normal v => Some (Validation.valid v)
  | Throw _ => None
  end.

(** The index a position of the board is addressed by. *)
Definition index_of (n : nat) : value := VNum (NInt (Z.of_nat n)).

End Course.

(** ** Calls of the setters of a player *)

Module Renaming.

(** The two setters. *)
Inductive setter : Type :=
| SetName (newName : value)
| SetSymbol (newSymbol : value).

Definition assign (s : setter) (p : Player.t) : completion unit * Player.t :=
  match s with
  | SetName newName => Player.set_name newName p
  | SetSymbol newSymbol => Player.set_symbol newSymbol p
  end.

Definition assign_all (setters : list setter) (p : Player.t) : Player.t :=
  foldl (fun p s => (assign s p).2) p setters.

(** The name is a non-empty string and the symbol one of the two marks. *)
Definition valid (p : Player.t) : Prop :=
  (∃ s, Player._name p = VStr s ∧ s ≠ "")
  ∧ (Player._symbol p = VStr "X" ∨ Player._symbol p = VStr "O").

End Renaming.

(** ** Characters of a string *)

Module Chars.

(** The string has a character of code [n]. *)
Fixpoint has_char (n : nat) (s : string) : bool :=
  match s with
  | EmptyString => false
  | String c rest => (Ascii.nat_of_ascii c =? n) || has_char n rest
  end.

End Chars.

(** ** Calls of the methods of a book *)

Module Shelf.

Inductive update : Type :=
| ToggleReadStatus
| UpdateRating (newRating : value)
| UpdateGenre (newGenre : value).

Definition apply (u : update) : Eff Book.t unit :=
  match u with
  | ToggleReadStatus => Book.toggleReadStatus
  | UpdateRating newRating => Book.updateRating newRating
  | UpdateGenre newGenre => Book.updateGenre newGenre
  end.

Definition apply_all (updates : list update) (b : Book.t) : Book.t :=
  foldl (fun b u => (apply u b).2) b updates.

(** A rating is [null] or an integer from 1 to 5. *)
Definition is_rating (v : value) : Prop :=
  v = VNull ∨ ∃ z, v = VNum (NInt z) ∧ (1 <= z <= 5)%Z.

(** A book on the shelf, not yet rated. *)
Definition novel : Book.t :=
  {| Book.id := VStr "book-1"; Book.title := VStr "Emma";
     Book.author := VStr "Jane Austen"; Book.pages := VNum (NInt 474);
     Book.read := VBool false; Book.genre := VStr ""; Book.rating := VNull;
     Book.dateAdded := 1000 |}.

End Shelf.

(** ** Calls of the methods of an event manager *)

Module Registry.
Import EventManager.

Inductive method : Type :=
| On (event : string) (callback : callback_arg) (context : value)
| Off (event : string) (callback : callback_arg)
| RemoveAllListeners (event : option string).

Definition invoke (c : method) : Eff t unit :=
  match c with
  | On event callback context => on event callback context
  | Off event callback => off event callback
  | RemoveAllListeners event => removeAllListeners event
  end.

Definition run (calls : list method) (m : t) : t :=
  foldl (fun m c => (invoke c m).2) m calls.

(** No event is kept with an empty array of listeners. *)
Definition tidy (m : t) : Prop :=
  ∀ event listeners, _listeners m !! event = Some listeners → listeners ≠ [].

(** The function [f] is registered for the event. *)
Definition registered (event : string) (f : nat) (m : t) : Prop :=
  ∃ listener, listener ∈ get event m ∧ callback listener = f.

End Registry.

(** * Facts about the board *)

Module GridFacts.
Import Gameboard Grid.

Lemma winningCombinations_lines : _winningCombinations = lines.
Proof. reflexivity. Qed.

Lemma cell_truthy_true (c : option string) :
  cell_truthy c = true ↔ ∃ s, c = Some s ∧ s ≠ "".
Proof.
  destruct c as [s|]; simpl.
  - rewrite negb_true_iff, String.eqb_neq. split.
    + intros Hs. exists s. done.
    + intros (s' & [= <-] & Hs). done.
  - split; [done | intros (s & Hs & _); done].
Qed.

Lemma cell_eq_true (x y : option string) : cell_eq x y = true ↔ x = y.
Proof.
  destruct x as [s|], y as [s'|]; simpl; try (split; done).
  rewrite String.eqb_eq. split; [by intros -> | by intros [= ->]].
Qed.

Lemma cell_eq_empty_false (c : option string) :
  cell_eq c (Some "") = false ↔ c ≠ Some "".
Proof.
  rewrite <- not_true_iff_false, cell_eq_true. done.
Qed.

Lemma lineComplete_uniform (gb : t) (line : nat * nat * nat) :
  lineComplete gb line = true ↔ ∃ mark, uniform gb line mark.
Proof.
  destruct line as [[a b] c]. unfold lineComplete, uniform. simpl.
  rewrite !andb_true_iff, cell_truthy_true, !cell_eq_true. split.
  - intros [[(s & Ha & Hs) Hb] Hc]. exists s. by rewrite <- Hb, <- Hc.
  - intros (s & Hs & Ha & Hb & Hc). rewrite Ha, Hb, Hc. eauto.
Qed.

(** Both scans stop at the same combination: the first complete one. *)
Lemma scans_agree (gb : t) (combinations : list (nat * nat * nat)) :
  match getWinningCombination_loop gb combinations with
  | Some line =>
      line ∈ combinations
      ∧ lineComplete gb line = true
      ∧ checkWinner_loop gb combinations = cell gb line.1.1
  | None =>
      (∀ line, line ∈ combinations → lineComplete gb line = false)
      ∧ checkWinner_loop gb combinations = None
  end.
Proof.
  induction combinations as [|line rest IH]; simpl.
  - split; [|done]. intros line Hin. by apply elem_of_nil in Hin.
  - destruct (lineComplete gb line) eqn:Hline.
    + split; [apply elem_of_cons; by left | done].
    + destruct (getWinningCombination_loop gb rest) as [line'|].
      * destruct IH as (Hin & Hc & Hw). split; [apply elem_of_cons; by right | done].
      * destruct IH as [Hnone Hw]. split; [|done].
        intros line' [-> | Hin]%elem_of_cons; auto.
Qed.

(** What [checkWinner] returns is never the empty string. *)
Lemma checkWinner_truthy (gb : t) :
  cell_truthy (checkWinner gb) = negb (bool_decide (checkWinner gb = None)).
Proof.
  pose proof (scans_agree gb _winningCombinations) as Hscan.
  unfold checkWinner.
  destruct (getWinningCombination_loop gb _winningCombinations) as [line|].
  - destruct Hscan as (_ & Hcomplete & ->).
    apply lineComplete_uniform in Hcomplete as (mark & Hmark & -> & _).
    simpl. apply String.eqb_neq in Hmark. by rewrite Hmark.
  - destruct Hscan as [_ ->]. done.
Qed.

Lemma count_empty_replicate (n : nat) : count_empty (replicate n "") = n.
Proof. induction n as [|n IH]; simpl; [done | by rewrite IH]. Qed.

Lemma count_empty_insert (cells : list string) (i : nat) (mark : string) :
  cells !! i = Some "" → mark ≠ "" →
  S (count_empty (<[i := mark]> cells)) = count_empty cells.
Proof.
  revert i. induction cells as [|c rest IH]; intros i Hi Hmark; [done|].
  destruct i as [|i]; simpl in *.
  - injection Hi as ->. apply String.eqb_neq in Hmark. rewrite Hmark. done.
  - rewrite <- (IH i Hi Hmark). lia.
Qed.

Lemma length_omap_imap (g : nat → string → option nat) (cells : list string) :
  (∀ i c, g i c = None ↔ String.eqb c "" = false) →
  length (omap id (imap g cells)) = count_empty cells.
Proof.
  revert g. induction cells as [|c rest IH]; intros g Hg; [done|].
  rewrite imap_cons. simpl.
  rewrite <- (IH (g ∘ S)); [|intros i c'; apply Hg].
  destruct (g 0 c) as [j|] eqn:Hj; simpl.
  - destruct (String.eqb c "") eqn:Hc; [done|].
    destruct (Hg 0 c) as [_ Hnone]. rewrite (Hnone Hc) in Hj. done.
  - destruct (Hg 0 c) as [Hfalse _]. by rewrite (Hfalse Hj).
Qed.

Lemma length_getEmptyPositions (gb : t) :
  length (getEmptyPositions gb) = count_empty (_board gb).
Proof.
  apply length_omap_imap. intros i c. by destruct (String.eqb c "").
Qed.

(** What [setMark] does, case by case. *)
Lemma setMark_invalid_index (index symbol : value) (gb : t) :
  _isValidIndex index = false →
  setMark index symbol gb = (Throw invalid_index, gb).
Proof. intros H. unfold setMark. by rewrite H. Qed.

Lemma setMark_invalid_symbol (index symbol : value) (gb : t) :
  _isValidIndex index = true → includes ["X"; "O"] symbol = false →
  setMark index symbol gb = (Throw invalid_symbol, gb).
Proof. intros Hi Hs. unfold setMark. by rewrite Hi, Hs. Qed.

Lemma setMark_occupied (index : value) (mark : string) (gb : t) :
  _isValidIndex index = true → includes ["X"; "O"] (VStr mark) = true →
  cell gb (position index) ≠ Some "" →
  setMark index (VStr mark) gb = (Normal false, gb).
Proof.
  intros Hi Hs Hc. unfold setMark. rewrite Hi, Hs. simpl.
  unfold bind, gets. apply cell_eq_empty_false in Hc. by rewrite Hc.
Qed.

Lemma setMark_empty (index : value) (mark : string) (gb : t) :
  _isValidIndex index = true → includes ["X"; "O"] (VStr mark) = true →
  cell gb (position index) = Some "" →
  setMark index (VStr mark) gb
  = (Normal true, {| _board := <[position index := mark]> (_board gb) |}).
Proof.
  intros Hi Hs Hc. unfold setMark. rewrite Hi, Hs. simpl.
  unfold bind, gets. by rewrite Hc.
Qed.

Lemma includes_marks (v : value) :
  includes ["X"; "O"] v = true ↔ v = VStr "X" ∨ v = VStr "O".
Proof.
  destruct v as [| |b|n|s|]; simpl; try (split; [done | intros [?|?]; done]).
  rewrite !orb_true_iff, !String.eqb_eq. split.
  - intros [->|[->|?]]; auto. done.
  - intros [[= ->]|[= ->]]; auto.
Qed.

End GridFacts.

(** * Facts about the moves *)

Module MoveFacts.
Import Game Moves.

(** Every call of [makeMove] ends in one of the seven ways of
    [move_step]. *)
Lemma makeMove_step (w : World) (index : value)
    (r : completion MoveResult) (w' : World) :
  makeMove index w = (r, w') → move_step w index r w'.
Proof.
  destruct w as [g c].
  unfold makeMove, bind, read, gets, assign, modify, on_gameboard, new_Date,
    property_of, ret, throw. simpl.
  destruct (_gameActive g) eqn:Hactive; simpl.
  2: { intros [= <- <-]. by apply step_inactive. }
  destruct (getCurrentPlayer g) as [p|] eqn:Hp; simpl.
  2: { intros [= <- <-]. by apply step_no_player. }
  destruct (Gameboard._isValidIndex index) eqn:Hi.
  2: { rewrite (GridFacts.setMark_invalid_index _ _ _ Hi). intros [= <- <-].
       destruct g. by eapply step_invalid_index. }
  destruct (includes ["X"; "O"] (Player.symbol p)) eqn:Hs.
  2: { rewrite (GridFacts.setMark_invalid_symbol _ _ _ Hi Hs). intros [= <- <-].
       destruct g. by eapply step_invalid_symbol. }
  assert (∃ mark, Player.symbol p = VStr mark ∧ (mark = "X" ∨ mark = "O"))
    as (mark & Hm & HXO).
  { apply GridFacts.includes_marks in Hs as [Hs|Hs]; eauto. }
  rewrite Hm in *.
  destruct (decide (Gameboard.cell (_gameboard g) (Gameboard.position index) = Some ""))
    as [Hc|Hc].
  2: { rewrite (GridFacts.setMark_occupied _ _ _ Hi Hs Hc). simpl. intros [= <- <-].
       destruct g. eapply step_occupied; eauto. by rewrite Hm. }
  rewrite (GridFacts.setMark_empty _ _ _ Hi Hs Hc). simpl.
  match goal with |- context [if ?b then _ else _] => destruct b eqn:Hterm end;
    intros [= <- <-].
  - eapply step_last with (p := p) (mark := mark); eauto.
    unfold mark_placed, entry_of; simpl. by rewrite Hm.
  - eapply step_next with (p := p) (mark := mark); eauto.
    unfold mark_placed, entry_of; simpl. by rewrite Hm.
Qed.

Lemma makeMove_cases (w : World) (index : value) :
  move_step w index (makeMove index w).1 (makeMove index w).2.
Proof. apply makeMove_step. by destruct (makeMove index w). Qed.

(** The three methods that start a game over. *)
Lemma startGame_eq (w : World) :
  startGame w
  = (Normal tt,
     {| this := {| _players := _players (this w);
                   _gameboard := Gameboard.new;
                   _currentPlayerIndex := 0;
                   _gameActive := true;
                   _gameHistory := [];
                   _startTime := Some (clock w 0);
                   _endTime := None |};
        clock := fun n => clock w (S n) |}).
Proof. reflexivity. Qed.

Lemma resetGame_eq (w : World) :
  resetGame w
  = (Normal tt,
     {| this := {| _players := _players (this w);
                   _gameboard := Gameboard.new;
                   _currentPlayerIndex := 0;
                   _gameActive := false;
                   _gameHistory := [];
                   _startTime := None;
                   _endTime := None |};
        clock := clock w |}).
Proof. reflexivity. Qed.

Lemma restartGame_eq (w : World) : restartGame w = startGame w.
Proof. reflexivity. Qed.

(** A property of the game that every call keeps holds after any
    sequence of calls. *)
Section Invariant.
Variable P : t → Prop.

Hypothesis P_makeMove :
  ∀ w index, P (this w) → P (this (call (makeMove index) w)).

Lemma play_invariant (indices : list value) (w : World) :
  P (this w) → P (this (play indices w)).
Proof.
  revert w. induction indices as [|index rest IH]; intros w Hw; [done|].
  apply IH, P_makeMove, Hw.
Qed.

Hypothesis P_fresh :
  ∀ ps active start,
    P {| _players := ps; _gameboard := Gameboard.new; _currentPlayerIndex := 0;
         _gameActive := active; _gameHistory := []; _startTime := start;
         _endTime := None |}.

Lemma invoke_invariant (m : method) (w : World) :
  P (this w) → P (this (invoke m w)).
Proof.
  intros Hw. destruct m as [|index| |]; unfold invoke, call.
  - rewrite startGame_eq. apply P_fresh.
  - by apply P_makeMove.
  - rewrite resetGame_eq. apply P_fresh.
  - rewrite restartGame_eq, startGame_eq. apply P_fresh.
Qed.

Lemma run_invariant (calls : list method) (w : World) :
  P (this w) → P (this (run calls w)).
Proof.
  revert w. induction calls as [|m rest IH]; intros w Hw; [done|].
  apply IH, invoke_invariant, Hw.
Qed.
End Invariant.

(** A call of [makeMove], split into its seven cases. *)
Ltac move_cases w index :=
  let r := fresh "r" in
  let w' := fresh "w'" in
  let E := fresh "E" in
  unfold call;
  destruct (makeMove index w) as [r w'] eqn:E;
  apply makeMove_step in E; simpl;
  destruct E as [Hactive
                |Hactive Hplayer
                |p Hactive Hplayer Hindex
                |p Hactive Hplayer Hindex Hsymbol
                |p Hactive Hplayer Hindex Hsymbol Hcell
                |p mark g Hactive Hplayer Hindex Hsymbol Hmark Hcell Hterminal ->
                |p mark g Hactive Hplayer Hindex Hsymbol Hmark Hcell Hterminal ->].

Lemma mark_not_empty (mark : string) : mark = "X" ∨ mark = "O" → mark ≠ "".
Proof. by intros [-> | ->]. Qed.

(** *** The board keeps its nine cells *)

Lemma nine_cells_makeMove (w : World) (index : value) :
  nine_cells (this w) → nine_cells (this (call (makeMove index) w)).
Proof.
  intros Hw. move_cases w index; try done.
  all: unfold nine_cells; simpl; by rewrite length_insert.
Qed.

(** *** Moves and empty cells add up to nine *)

Lemma counted_makeMove (w : World) (index : value) :
  counted (this w) → counted (this (call (makeMove index) w)).
Proof.
  intros Hw. move_cases w index; try done.
  all: unfold counted in *; simpl; rewrite length_app; simpl.
  all: pose proof (GridFacts.count_empty_insert _ _ mark Hcell (mark_not_empty _ Hmark)).
  all: lia.
Qed.

(** *** The players move in turn *)

Lemma alternating_push (g g' : t) (p : Player.t) (index : value) (now : Z) :
  in_turn g → _gameActive g = true → getCurrentPlayer g = Some p →
  _players g' = _players g →
  _gameHistory g' = (_gameHistory g ++ [entry_of p index now])%list →
  alternating g'.
Proof.
  intros (_ & Hparity & Halt) Hactive Hp Hps Hh k e. rewrite Hh, Hps.
  intros [Hold | [Hk Hnew]]%lookup_app_Some; [by apply Halt|].
  apply list_lookup_singleton_Some in Hnew as [Hk' <-].
  assert (k = length (_gameHistory g)) as -> by lia.
  exists p. split; [|done].
  rewrite <- (Hparity Hactive). exact Hp.
Qed.

Lemma in_turn_makeMove (w : World) (index : value) :
  in_turn (this w) → in_turn (this (call (makeMove index) w)).
Proof.
  intros Hw. move_cases w index; try done.
  - split; [|split].
    + apply Hw.
    + done.
    + by eapply alternating_push.
  - split; [|split].
    + simpl. destruct (_currentPlayerIndex (this w) =? 0)%Z; auto.
    + intros _. simpl. rewrite length_app. simpl.
      destruct Hw as (Hindex01 & Hparity & _). specialize (Hparity Hactive).
      destruct Hindex01 as [H0 | H1].
      * rewrite H0 in *. simpl. rewrite Nat2Z.inj_add. simpl (Z.of_nat 1).
        Z.div_mod_to_equations. lia.
      * rewrite H1 in *. simpl. rewrite Nat2Z.inj_add. simpl (Z.of_nat 1).
        Z.div_mod_to_equations. lia.
    + by eapply alternating_push.
Qed.

Lemma in_turn_fresh (ps : Player.t * Player.t) (active : bool) (start : option Z) :
  in_turn {| _players := ps; _gameboard := Gameboard.new; _currentPlayerIndex := 0;
             _gameActive := active; _gameHistory := []; _startTime := start;
             _endTime := None |}.
Proof.
  split; [by left | split; [done|]]. intros k e Hk. done.
Qed.

Lemma counted_fresh (ps : Player.t * Player.t) (active : bool) (start : option Z) :
  counted {| _players := ps; _gameboard := Gameboard.new; _currentPlayerIndex := 0;
             _gameActive := active; _gameHistory := []; _startTime := start;
             _endTime := None |}.
Proof. reflexivity. Qed.

(** *** The game survives its own JSON *)

Lemma fromJSON_toJSON_board (gb : Gameboard.t) :
  length (Gameboard._board gb) = 9 →
  Gameboard.fromJSON (Gameboard.toJSON gb) = gb.
Proof.
  intros Hlen. destruct gb as [cells]. unfold Gameboard.fromJSON, Gameboard.toJSON.
  simpl in *. by rewrite Hlen.
Qed.

Lemma or_zero_Some (i : Z) : or_zero (Some i) = i.
Proof. simpl. by destruct (Z.eqb_spec i 0). Qed.

Lemma or_false_Some (b : bool) : or_false (Some b) = b.
Proof. by destruct b. Qed.

Lemma date_or_null_id (d : option Z) : date_or_null d = d.
Proof. by destruct d. Qed.

Lemma reloaded_id (g : t) : nine_cells g → reloaded g = g.
Proof.
  intros Hnine. destruct g as [[[n1 s1] [n2 s2]] gb i active h st et].
  unfold reloaded, fromJSON, toJSON. cbn [_players _gameboard _currentPlayerIndex
    _gameActive _gameHistory _startTime _endTime json_players json_gameboard
    json_currentPlayerIndex json_gameActive json_gameHistory json_startTime
    json_endTime fst snd].
  rewrite (fromJSON_toJSON_board gb Hnine), or_zero_Some, or_false_Some,
    !date_or_null_id.
  reflexivity.
Qed.

Lemma fromJSON_length (data : Gameboard.json) :
  length (Gameboard._board (Gameboard.fromJSON data)) = 9.
Proof.
  unfold Gameboard.fromJSON.
  destruct (Gameboard.json_board data) as [cells|v]; simpl.
  - destruct (length cells =? 9) eqn:Hlen; [|done].
    by apply Nat.eqb_eq in Hlen.
  - by rewrite andb_false_r.
Qed.

Lemma nine_cells_built (o : origin) : nine_cells (built o).
Proof. destruct o; apply fromJSON_length. Qed.

(** The game of the integration test: Alice wins with the top row. *)
Example top_row_wins :
  Gameboard.checkWinner (_gameboard (this Scenario.won)) = Some "X"
  ∧ Gameboard.getWinningCombination (_gameboard (this Scenario.won)) = Some (0, 1, 2)
  ∧ _gameActive (this Scenario.won) = false
  ∧ State.winningPlayer (getGameState (this Scenario.won)) = Some Scenario.alice
  ∧ State.gameDuration (getGameState (this Scenario.won)) = Some 6%Z.
Proof. repeat split. Qed.

(** [restartGame()] after a finished game: an empty board, the first
    player to move, the same two players. *)
Example restart_after_win :
  let w := call restartGame Scenario.won in
  Gameboard.getEmptyPositions (_gameboard (this w)) = seq 0 9
  ∧ _currentPlayerIndex (this w) = 0%Z
  ∧ _gameActive (this w) = true
  ∧ _players (this w) = (Scenario.alice, Scenario.bob).
Proof. repeat split. Qed.

End MoveFacts.

(** * The claims *)

Import Game Moves.

(** C1. The table the two scans walk is the eight lines of the grid (three
    rows, three columns, two diagonals).  For every board, [checkWinner()]
    returns a mark exactly when the three cells of one of these lines hold
    the same non-empty mark, and [getWinningCombination()] returns a line
    under exactly the same condition; the line it returns is one of the
    eight and its three cells all hold the mark [checkWinner()] returns. *)
Theorem C1_winner_iff_uniform_line (gb : Gameboard.t) :
  Gameboard._winningCombinations = Grid.lines
  ∧ (Gameboard.checkWinner gb ≠ None ↔ Grid.won gb)
  ∧ (Gameboard.getWinningCombination gb ≠ None ↔ Grid.won gb)
  ∧ match Gameboard.getWinningCombination gb with
    | Some line =>
        line ∈ Grid.lines
        ∧ ∃ mark, Gameboard.checkWinner gb = Some mark ∧ Grid.uniform gb line mark
    | None => Gameboard.checkWinner gb = None
    end.
Proof.
  split; [reflexivity|].
  pose proof (GridFacts.scans_agree gb Gameboard._winningCombinations) as Hscan.
  unfold Gameboard.checkWinner, Gameboard.getWinningCombination, Grid.won.
  rewrite <- GridFacts.winningCombinations_lines.
  destruct (Gameboard.getWinningCombination_loop gb Gameboard._winningCombinations)
    as [line|].
  - destruct Hscan as (Hin & Hcomplete & Hwinner).
    apply GridFacts.lineComplete_uniform in Hcomplete as [mark Hmark].
    assert (Gameboard.checkWinner_loop gb Gameboard._winningCombinations = Some mark)
      as Hsome.
    { rewrite Hwinner. apply Hmark. }
    rewrite Hsome. repeat split; try done; eauto.
  - destruct Hscan as [Hnone Hwinner]. rewrite Hwinner.
    assert (¬ ∃ line mark, line ∈ Gameboard._winningCombinations
                           ∧ Grid.uniform gb line mark) as Hnot.
    { intros (line & mark & Hin & Hmark).
      specialize (Hnone line Hin).
      assert (Gameboard.lineComplete gb line = true) as Htrue
        by (apply GridFacts.lineComplete_uniform; eauto).
      congruence. }
    repeat split; try done; intros H; by apply Hnot in H.
Qed.

(** C3, as the code has it.  In an active game whose player to move
    exists and holds one of the two marks 'X' and 'O', [makeMove(index)] on
    an index of [0,8] whose cell holds a mark returns the failure
    'Position already occupied' (it does not throw) with the snapshot of
    the game as it was, and leaves the whole game as it was: board cells,
    move history, [_currentPlayerIndex] and [_gameActive] included; the
    clock is not read. *)
Theorem C3_occupied_cell_rejected (w : World) (index : value) :
  _gameActive (this w) = true →
  mover_has_mark (this w) = true →
  Gameboard._isValidIndex index = true →
  Grid.occupied (_gameboard (this w)) (Gameboard.position index) = true →
  makeMove index w
  = (Normal {| success := false;
               error := Some "Position already occupied";
               gameState := getGameState (this w) |},
     w).
Proof.
  intros Hactive Hmover Hindex Hocc.
  unfold mover_has_mark in Hmover. unfold Grid.occupied in Hocc.
  apply GridFacts.cell_truthy_true in Hocc as (s & Hs & Hne).
  destruct (makeMove index w) as [r w'] eqn:E.
  apply MoveFacts.makeMove_step in E.
  destruct E as [Ha|Ha Hp|p Ha Hp Hi|p Ha Hp Hi Hsym|p Ha Hp Hi Hsym Hcell
                |p mark g Ha Hp Hi Hsym Hmark Hcell Ht Hg
                |p mark g Ha Hp Hi Hsym Hmark Hcell Ht Hg];
    try congruence.
  - rewrite Hp in Hmover. done.
  - rewrite Hp in Hmover. congruence.
  - reflexivity.
Qed.

Lemma C3_occupied_cell_rejected_witness :
  makeMove (Scenario.at_index 0) Scenario.one_move
  = (Normal {| success := false;
               error := Some "Position already occupied";
               gameState := getGameState (this Scenario.one_move) |},
     Scenario.one_move).
Proof.
  apply (C3_occupied_cell_rejected Scenario.one_move (Scenario.at_index 0));
    reflexivity.
Defined.

(** C3, as the claim states it, for every active game, fails:
    [Gameboard.setMark] tests the symbol before the cell and [makeMove]
    catches nothing.  In the started game of Alice and Zed, where Alice
    took cell 0 and Zed, built by [new Player('Zed', 'Z')], is to move,
    [makeMove(0)] throws the Error 'Invalid symbol' and returns no
    result. *)
Lemma C3_counterexample :
  _gameActive (this Scenario.zed_to_move) = true
  ∧ Gameboard._isValidIndex (Scenario.at_index 0) = true
  ∧ Grid.occupied (_gameboard (this Scenario.zed_to_move))
      (Gameboard.position (Scenario.at_index 0)) = true
  ∧ (makeMove (Scenario.at_index 0) Scenario.zed_to_move).1
    = Throw Gameboard.invalid_symbol
  ∧ ¬ ∃ result,
        (makeMove (Scenario.at_index 0) Scenario.zed_to_move).1 = Normal result.
Proof.
  repeat split; try reflexivity.
  intros [result Hresult]. vm_compute in Hresult. discriminate.
Qed.

(** C5. On a game that is not active, [makeMove(index)] returns, for every
    index, the failure 'Game is not active' with the snapshot of the game
    as it is, and changes nothing: board, history, [_currentPlayerIndex]
    and both time stamps are those from before, and the clock is not
    read. *)
Theorem C5_inactive_game_rejects (w : World) (index : value) :
  _gameActive (this w) = false →
  makeMove index w
  = (Normal {| success := false;
               error := Some "Game is not active";
               gameState := getGameState (this w) |},
     w).
Proof.
  intros Hinactive. destruct w as [g c]. simpl in Hinactive.
  unfold makeMove, bind, read, gets, ret. simpl. by rewrite Hinactive.
Qed.

Lemma C5_inactive_game_rejects_witness :
  makeMove (Scenario.at_index 4) Scenario.won
  = (Normal {| success := false;
               error := Some "Game is not active";
               gameState := getGameState (this Scenario.won) |},
     Scenario.won).
Proof.
  apply (C5_inactive_game_rejects Scenario.won (Scenario.at_index 4)).
  reflexivity.
Defined.

(** C2. Take any game, start it, and make any sequence of [makeMove]
    calls.  At the next call: if the move is accepted and the game is still
    active afterwards, [_currentPlayerIndex] has flipped, from 0 to 1 or
    from 1 to 0; if the move is not accepted (a failure result or an
    exception), [_currentPlayerIndex] is what it was.  Throughout,
    [_currentPlayerIndex] is 0 or 1 and the recorded moves were made by the
    two players in turn. *)
Theorem C2_players_alternate (w0 : World) (indices : list value) (index : value) :
  let w := play indices (call startGame w0) in
  let r := (makeMove index w).1 in
  let w' := (makeMove index w).2 in
  (accepted r = true → _gameActive (this w') = true →
   _currentPlayerIndex (this w') = (1 - _currentPlayerIndex (this w))%Z)
  ∧ (accepted r = false →
     _currentPlayerIndex (this w') = _currentPlayerIndex (this w))
  ∧ (_currentPlayerIndex (this w) = 0 ∨ _currentPlayerIndex (this w) = 1)%Z
  ∧ alternating (this w).
Proof.
  intros w r w'.
  assert (in_turn (this w)) as Hturn.
  { apply (MoveFacts.play_invariant in_turn MoveFacts.in_turn_makeMove).
    unfold call. rewrite MoveFacts.startGame_eq. apply MoveFacts.in_turn_fresh. }
  pose proof Hturn as (H01 & _ & Halt).
  pose proof (MoveFacts.makeMove_cases w index) as Hstep.
  fold r w' in Hstep.
  repeat split; try done.
  - intros Haccepted Hactive'.
    destruct Hstep as [| | | | | p mark g _ _ _ _ _ _ _ ->
                      | p mark g _ _ _ _ _ _ _ ->]; try done.
    simpl. destruct H01 as [-> | ->]; done.
  - intros Hrejected.
    destruct Hstep as [| | | | | p mark g _ _ _ _ _ _ _ ->
                      | p mark g _ _ _ _ _ _ _ ->]; done.
Qed.

(** C4. After [startGame()] and any sequence of [makeMove] calls, or of
    calls of any of the methods of the game, the number of recorded moves
    and the number of positions [getEmptyPositions()] lists add up to 9. *)
Theorem C4_moves_plus_empty_is_nine
    (w0 : World) (indices : list value) (calls : list method) :
  let count (w : World) :=
    length (_gameHistory (this w))
    + length (Gameboard.getEmptyPositions (_gameboard (this w))) in
  count (play indices (call startGame w0)) = 9
  ∧ count (run calls (call startGame w0)) = 9.
Proof.
  intros count. unfold count. rewrite !GridFacts.length_getEmptyPositions.
  assert (counted (this (call startGame w0))) as Hstart.
  { unfold call. rewrite MoveFacts.startGame_eq. apply MoveFacts.counted_fresh. }
  split.
  - by apply (MoveFacts.play_invariant counted MoveFacts.counted_makeMove).
  - by apply (MoveFacts.run_invariant counted MoveFacts.counted_makeMove
                MoveFacts.counted_fresh).
Qed.

(** C6, as the code has it.  In an active game, [makeMove(index)] with an
    index that is not an integer of [0,8] returns no result: an exception
    reaches the caller and the game is left as it was.  Whenever the game
    has a player to move, the exception is the Error 'Invalid board index'
    that [Gameboard.setMark] throws. *)
Theorem C6_invalid_index_is_thrown (w : World) (index : value) :
  _gameActive (this w) = true →
  Gameboard._isValidIndex index = false →
  ∃ e, makeMove index w = (Throw e, w)
       ∧ (is_Some (getCurrentPlayer (this w)) → e = Error "Invalid board index").
Proof.
  intros Hactive Hindex.
  destruct (makeMove index w) as [r w'] eqn:E.
  apply MoveFacts.makeMove_step in E.
  destruct E as [Ha|Ha Hp|p Ha Hp Hi|p Ha Hp Hi Hsym|p Ha Hp Hi Hsym Hcell
                |p mark g Ha Hp Hi Hsym Hmark Hcell Ht Hg
                |p mark g Ha Hp Hi Hsym Hmark Hcell Ht Hg];
    try congruence.
  - eexists. split; [reflexivity|]. rewrite Hp. by intros [? ?].
  - eexists. split; [reflexivity|]. done.
Qed.

Lemma C6_invalid_index_is_thrown_witness :
  ∃ e, makeMove (Scenario.at_index 9) Scenario.started = (Throw e, Scenario.started)
       ∧ (is_Some (getCurrentPlayer (this Scenario.started)) →
          e = Error "Invalid board index").
Proof.
  apply (C6_invalid_index_is_thrown Scenario.started (Scenario.at_index 9));
    reflexivity.
Defined.

(** C6, as the claim states it, fails: in the started game of Alice and
    Bob, [makeMove(9)] throws and returns no result value. *)
Lemma C6_counterexample :
  _gameActive (this Scenario.started) = true
  ∧ Gameboard._isValidIndex (Scenario.at_index 9) = false
  ∧ (makeMove (Scenario.at_index 9) Scenario.started).1
    = Throw (Error "Invalid board index")
  ∧ ¬ ∃ result, (makeMove (Scenario.at_index 9) Scenario.started).1 = Normal result.
Proof.
  repeat split; try reflexivity.
  intros [result Hresult]. vm_compute in Hresult. discriminate.
Qed.

(** C7.  The constructor writes both fields without any check, so
    [new Player('Bob', 'Z')] and [new Player('', 'O')] are players holding
    the invalid symbol and the empty name, where the two setters throw on
    the same arguments. *)
Theorem C7_constructor_skips_validation :
  Player.new (VStr "Bob") (VStr "Z")
  = {| Player._name := VStr "Bob"; Player._symbol := VStr "Z" |}
  ∧ Player.new (VStr "") (VStr "O")
    = {| Player._name := VStr ""; Player._symbol := VStr "O" |}
  ∧ (Player.set_symbol (VStr "Z") Scenario.bob).1 = Throw Player.invalid_symbol
  ∧ (Player.set_name (VStr "") Scenario.bob).1 = Throw Player.invalid_name
  ∧ (Player.set_name (VStr "   ") Scenario.bob).1 = Throw Player.invalid_name
  ∧ (Player.set_name (VNum (NInt 7)) Scenario.bob).1 = Throw Player.invalid_name.
Proof. repeat split. Qed.

(** C8. Take any game, built by [new Game] on any two players and any
    board of the [Gameboard] class or itself rebuilt by [Game.fromJSON],
    and call its methods in any order.  The game rebuilt by
    [Game.fromJSON] from what [toJSON()] returns then answers
    [makeMove(i)], for every index, as the game itself does: same success
    flag and error (or same exception), same board, same number of
    recorded moves, same [_currentPlayerIndex], same active flag.  In fact
    the rebuilt game has the very same fields. *)
Theorem C8_reloaded_game_moves_alike
    (o : origin) (c : Clock) (calls : list method) (index : value) :
  let w := run calls {| this := built o; clock := c |} in
  let w' := {| this := reloaded (this w); clock := clock w |} in
  observe (makeMove index w') = observe (makeMove index w)
  ∧ reloaded (this w) = this w.
Proof.
  intros w w'.
  assert (reloaded (this w) = this w) as Hsame.
  { apply MoveFacts.reloaded_id.
    apply (MoveFacts.run_invariant nine_cells MoveFacts.nine_cells_makeMove).
    - intros ps active start. reflexivity.
    - apply MoveFacts.nine_cells_built. }
  split; [|exact Hsame].
  unfold w'. rewrite Hsame. by destruct w.
Qed.

(** C9, as the code has it.  The snapshot an accepted move returns reports
    as current player the player at [_currentPlayerIndex] of the game the
    move leaves, and is active exactly when the board is not over (no
    winner and not full).  When the move ended the game this is the player
    who made the move, never [null]; while the game is still active it is
    the other player, whose turn it now is. *)
Theorem C9_snapshot_current_player (w : World) (index : value) :
  accepted (makeMove index w).1 = true →
  ∃ s, snapshot (makeMove index w).1 = Some s
       ∧ State.currentPlayer s = getCurrentPlayer (this (makeMove index w).2)
       ∧ State.isGameActive s
         = negb (Gameboard.State.isGameOver (State.boardState s))
       ∧ (State.isGameActive s = false →
          is_Some (State.currentPlayer s)
          ∧ State.currentPlayer s = getCurrentPlayer (this w))
       ∧ (State.isGameActive s = true →
          State.currentPlayer s = getOtherPlayer (this w)).
Proof.
  intros Haccepted.
  pose proof (MoveFacts.makeMove_cases w index) as Hstep.
  destruct (makeMove index w) as [r w']. simpl in *.
  destruct Hstep as [| | | |
                    | p mark g Hactive Hp _ _ _ _ Hterminal ->
                    | p mark g Hactive Hp _ _ _ _ Hterminal ->]; try done.
  - eexists. split; [reflexivity|]. simpl.
    unfold terminal in Hterminal. simpl in Hterminal.
    rewrite GridFacts.checkWinner_truthy in Hterminal.
    repeat split; try done.
    by rewrite Hterminal.
  - eexists. split; [reflexivity|]. simpl.
    unfold terminal in Hterminal. simpl in Hterminal.
    rewrite GridFacts.checkWinner_truthy in Hterminal.
    repeat split; try done.
    all: try by rewrite Hterminal.
    all: congruence.
Qed.

Lemma C9_snapshot_current_player_witness :
  ∃ s, snapshot (makeMove (Scenario.at_index 2) Scenario.before_win).1 = Some s
       ∧ State.currentPlayer s
         = getCurrentPlayer (this (makeMove (Scenario.at_index 2) Scenario.before_win).2)
       ∧ State.isGameActive s
         = negb (Gameboard.State.isGameOver (State.boardState s))
       ∧ (State.isGameActive s = false →
          is_Some (State.currentPlayer s)
          ∧ State.currentPlayer s = getCurrentPlayer (this Scenario.before_win))
       ∧ (State.isGameActive s = true →
          State.currentPlayer s = getOtherPlayer (this Scenario.before_win)).
Proof.
  apply (C9_snapshot_current_player Scenario.before_win (Scenario.at_index 2)).
  reflexivity.
Defined.

(** C9, as the claim states it, fails: Alice completes the top row, the
    move is accepted and ends the game with X the winner, and the snapshot
    reports Alice as current player, not [null]. *)
Lemma C9_counterexample :
  accepted (makeMove (Scenario.at_index 2) Scenario.before_win).1 = true
  ∧ _gameActive (this (makeMove (Scenario.at_index 2) Scenario.before_win).2) = false
  ∧ Gameboard.checkWinner
      (_gameboard (this (makeMove (Scenario.at_index 2) Scenario.before_win).2))
    = Some "X"
  ∧ State.currentPlayer
      <$> snapshot (makeMove (Scenario.at_index 2) Scenario.before_win).1
    = Some (Some Scenario.alice)
  ∧ State.currentPlayer
      <$> snapshot (makeMove (Scenario.at_index 2) Scenario.before_win).1
    ≠ Some None.
Proof. repeat split. intros H. vm_compute in H. discriminate. Qed.

(** C10. [Gameboard.fromJSON(data)] never fails.  When [data.board] is an
    array of 9 elements the board it returns holds a copy of it; when
    [data.board] is an array of another length, or is not an array
    (missing, [null], a number, a string, an object), it returns the board
    of a new [Gameboard]: nine cells, all empty. *)
Theorem C10_fromJSON_falls_back_to_empty (data : Gameboard.json) :
  match Gameboard.json_board data with
  | Gameboard.BoardArray cells =>
      if decide (length cells = 9)
      then Gameboard._board (Gameboard.fromJSON data) = cells
      else Gameboard.fromJSON data = Gameboard.new
  | Gameboard.BoardOther _ => Gameboard.fromJSON data = Gameboard.new
  end
  ∧ Gameboard._board Gameboard.new = replicate 9 ""
  ∧ Gameboard.getEmptyPositions Gameboard.new = seq 0 9.
Proof.
  split; [|done].
  unfold Gameboard.fromJSON.
  destruct (Gameboard.json_board data) as [cells|v]; simpl.
  - destruct (decide (length cells = 9)) as [Hlen|Hlen].
    + by rewrite Hlen.
    + apply Nat.eqb_neq in Hlen. by rewrite Hlen.
  - by rewrite andb_false_r.
Qed.

(** * More about the board *)

Module BoardMore.
Import Gameboard Grid Marks.
Local Open Scope list_scope.

(** A call of [setMark] ends in one of three ways. *)
Lemma setMark_cases (index symbol : value) (gb : t) :
  (∃ e, setMark index symbol gb = (Throw e, gb))
  ∨ setMark index symbol gb = (Normal false, gb)
  ∨ ∃ mark, symbol = VStr mark
            ∧ (mark = "X" ∨ mark = "O")
            ∧ _isValidIndex index = true
            ∧ cell gb (position index) = Some ""
            ∧ setMark index symbol gb
              = (Normal true, {| _board := <[position index := mark]> (_board gb) |}).
Proof.
  destruct (_isValidIndex index) eqn:Hi.
  2: { left. eexists. by apply GridFacts.setMark_invalid_index. }
  destruct (includes ["X"; "O"] symbol) eqn:Hs.
  2: { left. eexists. by apply GridFacts.setMark_invalid_symbol. }
  assert (∃ mark, symbol = VStr mark ∧ (mark = "X" ∨ mark = "O")) as (mark & -> & HXO).
  { apply GridFacts.includes_marks in Hs as [->| ->]; eauto. }
  destruct (decide (cell gb (position index) = Some "")) as [Hc|Hc].
  - right. right. exists mark. repeat split; try done.
    by apply GridFacts.setMark_empty.
  - right. left. by apply GridFacts.setMark_occupied.
Qed.

Lemma cell_insert_eq (gb : t) (i : nat) (mark : string) :
  is_Some (cell gb i) →
  cell {| _board := <[i := mark]> (_board gb) |} i = Some mark.
Proof.
  intros [c Hc]. unfold cell in *. simpl.
  apply list_lookup_insert_eq. by eapply lookup_lt_Some.
Qed.

Lemma cell_insert_ne (gb : t) (i j : nat) (mark : string) :
  j ≠ i → cell {| _board := <[i := mark]> (_board gb) |} j = cell gb j.
Proof. intros Hne. unfold cell. simpl. by apply list_lookup_insert_ne. Qed.

(** X1. [setMark(index, symbol)] with an index of [0,8], one of the two
    marks and an empty cell at the index returns [true]; afterwards
    [getCellValue(index)] is the mark, every other cell is what it was and
    the board has as many cells as before. *)
Theorem setMark_places_the_mark (gb : t) (index : value) (mark : string) :
  _isValidIndex index = true →
  includes ["X"; "O"] (VStr mark) = true →
  cell gb (position index) = Some "" →
  let gb' := after (setMark index (VStr mark)) gb in
  (setMark index (VStr mark) gb).1 = Normal true
  ∧ (getCellValue index gb').1 = Normal (Some mark)
  ∧ (∀ j, j ≠ position index → cell gb' j = cell gb j)
  ∧ length (_board gb') = length (_board gb).
Proof.
  intros Hi Hs Hc gb'. unfold gb', after.
  rewrite (GridFacts.setMark_empty _ _ _ Hi Hs Hc). simpl.
  repeat split.
  - unfold getCellValue. rewrite Hi. simpl. unfold gets. simpl.
    f_equal. apply cell_insert_eq. by rewrite Hc.
  - intros j Hj. by apply cell_insert_ne.
  - apply length_insert.
Qed.

Lemma setMark_places_the_mark_witness :
  let gb' := after (setMark (Scenario.at_index 4) (VStr "X")) new in
  (setMark (Scenario.at_index 4) (VStr "X") new).1 = Normal true
  ∧ (getCellValue (Scenario.at_index 4) gb').1 = Normal (Some "X")
  ∧ (∀ j, j ≠ position (Scenario.at_index 4) → cell gb' j = cell new j)
  ∧ length (_board gb') = length (_board new).
Proof.
  apply (setMark_places_the_mark new (Scenario.at_index 4) "X"); reflexivity.
Defined.

Lemma setMark_keeps_mark (index symbol : value) (gb : t) (i : nat) (mark : string) :
  cell gb i = Some mark → mark ≠ "" →
  cell (after (setMark index symbol) gb) i = Some mark.
Proof.
  intros Hcell Hmark. unfold after.
  destruct (setMark_cases index symbol gb)
    as [[e ->] | [-> | (m & -> & _ & _ & Hempty & ->)]]; try done.
  simpl. rewrite cell_insert_ne; [done|].
  intros ->. rewrite Hcell in Hempty. congruence.
Qed.

(** X2. A cell that holds a mark holds the same mark after any sequence
    of [setMark] calls, whatever their arguments and whether they return or
    throw: only [reset()] clears a cell. *)
Theorem mark_is_never_overwritten
    (gb : t) (moves : list (value * value)) (i : nat) (mark : string) :
  cell gb i = Some mark → mark ≠ "" → cell (place moves gb) i = Some mark.
Proof.
  revert gb. induction moves as [|move rest IH]; intros gb Hcell Hmark; [done|].
  simpl. apply IH; [|done]. by apply setMark_keeps_mark.
Qed.

Lemma mark_is_never_overwritten_witness :
  cell (place [(Scenario.at_index 0, VStr "O"); (Scenario.at_index 1, VStr "O")]
          (Game._gameboard (Game.this Scenario.one_move))) 0
  = Some "X".
Proof.
  apply (mark_is_never_overwritten
           (Game._gameboard (Game.this Scenario.one_move))
           [(Scenario.at_index 0, VStr "O"); (Scenario.at_index 1, VStr "O")]
           0 "X"); [reflexivity | discriminate].
Defined.

(** X3. [setMark] throws exactly when the index is not an integer of
    [0,8] or the symbol is not one of the two marks, and the exception is
    'Invalid board index' exactly when the index is invalid (the index is
    checked first).  Whenever it throws or returns [false] the board is
    left as it was. *)
Theorem setMark_changes_only_on_success (index symbol : value) (gb : t) :
  (threw (setMark index symbol gb).1
   = negb (_isValidIndex index) || negb (includes ["X"; "O"] symbol))
  ∧ ((setMark index symbol gb).1 = Throw invalid_index ↔ _isValidIndex index = false)
  ∧ ((setMark index symbol gb).1 = Normal false ∨ threw (setMark index symbol gb).1 = true
     → after (setMark index symbol) gb = gb).
Proof.
  unfold after.
  destruct (_isValidIndex index) eqn:Hi.
  2: { rewrite (GridFacts.setMark_invalid_index _ _ _ Hi). simpl. by repeat split. }
  destruct (includes ["X"; "O"] symbol) eqn:Hs.
  2: { rewrite (GridFacts.setMark_invalid_symbol _ _ _ Hi Hs). simpl. by repeat split. }
  assert (∃ mark, symbol = VStr mark) as [mark ->].
  { pose proof Hs as Hs'. apply GridFacts.includes_marks in Hs' as [->| ->]; eauto. }
  destruct (decide (cell gb (position index) = Some "")) as [Hc|Hc].
  - rewrite (GridFacts.setMark_empty _ _ _ Hi Hs Hc). simpl.
    repeat split; try done. intros [?|?]; done.
  - rewrite (GridFacts.setMark_occupied _ _ _ Hi Hs Hc). simpl. by repeat split.
Qed.

(** *** Empty positions *)

Lemma getEmptyPositions_from (gb : t) :
  getEmptyPositions gb = positions_from 0 (_board gb).
Proof. reflexivity. Qed.

Lemma positions_from_cons (k : nat) (c : string) (cells : list string) :
  positions_from k (c :: cells)
  = (if String.eqb c "" then [k] else []) ++ positions_from (S k) cells.
Proof.
  unfold positions_from. rewrite imap_cons. simpl.
  rewrite (imap_ext _ (λ i c0, if String.eqb c0 "" then Some (S k + i) else None) cells).
  2: { intros i x _. simpl. by rewrite Nat.add_succ_r. }
  rewrite Nat.add_0_r. by destruct (String.eqb c "").
Qed.

Lemma elem_of_positions_from (k j : nat) (cells : list string) :
  j ∈ positions_from k cells ↔ ∃ i, j = k + i ∧ cells !! i = Some "".
Proof.
  revert k. induction cells as [|c rest IH]; intros k.
  - split; [by intros ?%elem_of_nil | by intros (i & _ & ?)].
  - rewrite positions_from_cons, elem_of_app, IH. split.
    + intros [Hhere | (i & -> & Hi)].
      * destruct (String.eqb_spec c ""); [|by apply elem_of_nil in Hhere].
        apply list_elem_of_singleton in Hhere as ->. subst c.
        exists 0. split; [lia | done].
      * exists (S i). split; [lia | done].
    + intros ([|i] & -> & Hi); simpl in Hi.
      * left. injection Hi as ->. simpl. rewrite Nat.add_0_r.
        by apply list_elem_of_singleton.
      * right. exists i. split; [lia | done].
Qed.

Lemma positions_from_sorted (k : nat) (cells : list string) :
  StronglySorted lt (positions_from k cells).
Proof.
  revert k. induction cells as [|c rest IH]; intros k.
  - constructor.
  - rewrite positions_from_cons. destruct (String.eqb c ""); simpl; [|apply IH].
    constructor; [apply IH|].
    apply Forall_forall. intros j (i & -> & _)%elem_of_positions_from. lia.
Qed.

Lemma elem_of_getEmptyPositions (gb : t) (i : nat) :
  i ∈ getEmptyPositions gb ↔ cell gb i = Some "".
Proof.
  rewrite getEmptyPositions_from, elem_of_positions_from. unfold cell. split.
  - by intros (j & -> & Hj).
  - intros Hi. by exists i.
Qed.

(** X4. [getEmptyPositions()] lists exactly the indices whose cell is
    empty, each once and in ascending order. *)
Theorem getEmptyPositions_lists_empty_cells (gb : t) :
  (∀ i, i ∈ getEmptyPositions gb ↔ cell gb i = Some "")
  ∧ StronglySorted lt (getEmptyPositions gb).
Proof.
  split; [apply elem_of_getEmptyPositions|].
  rewrite getEmptyPositions_from. apply positions_from_sorted.
Qed.

Lemma isFull_count (gb : t) : isFull gb = true ↔ count_empty (_board gb) = 0.
Proof.
  unfold isFull. induction (_board gb) as [|c rest IH]; simpl; [done|].
  rewrite andb_true_iff, IH. destruct (String.eqb c ""); simpl; split.
  - by intros [? _].
  - done.
  - by intros [_ ?].
  - done.
Qed.

Lemma isFull_no_empty (gb : t) : isFull gb = true ↔ getEmptyPositions gb = [].
Proof.
  rewrite isFull_count, <- GridFacts.length_getEmptyPositions.
  destruct (getEmptyPositions gb); simpl; split; done.
Qed.

(** X5. [isFull()] is [true] exactly when [getEmptyPositions()] is
    empty, that is, when no cell of the board is empty. *)
Theorem isFull_iff_no_empty_position (gb : t) :
  (isFull gb = true ↔ getEmptyPositions gb = [])
  ∧ (isFull gb = true ↔ ∀ i c, cell gb i = Some c → c ≠ "").
Proof.
  split; [apply isFull_no_empty|].
  rewrite isFull_no_empty. split.
  - intros Hnone i c Hc ->. apply elem_of_getEmptyPositions in Hc.
    rewrite Hnone in Hc. by apply elem_of_nil in Hc.
  - intros Hall. destruct (getEmptyPositions gb) as [|i rest] eqn:He; [done|].
    assert (i ∈ getEmptyPositions gb) as Hi by (rewrite He; apply elem_of_cons; by left).
    apply elem_of_getEmptyPositions in Hi. by apply Hall in Hi.
Qed.

(** X6. [isEmpty(index)] and [getCellValue(index)] never change the
    board.  On an index that is not an integer of [0,8] both throw 'Invalid
    board index'.  On a valid index [getCellValue] returns the cell, and
    [isEmpty] returns [true] exactly when the index is one of
    [getEmptyPositions()], exactly when [getCellValue] returns ['']. *)
Theorem isEmpty_agrees_with_getEmptyPositions (index : value) (gb : t) :
  after (isEmpty index) gb = gb
  ∧ after (getCellValue index) gb = gb
  ∧ if _isValidIndex index
    then (getCellValue index gb).1 = Normal (cell gb (position index))
         ∧ ∃ b, (isEmpty index gb).1 = Normal b
                ∧ (b = true ↔ position index ∈ getEmptyPositions gb)
                ∧ (b = true ↔ (getCellValue index gb).1 = Normal (Some ""))
    else (isEmpty index gb).1 = Throw invalid_index
         ∧ (getCellValue index gb).1 = Throw invalid_index.
Proof.
  unfold after, isEmpty, getCellValue.
  destruct (_isValidIndex index); simpl; [|done].
  repeat split. eexists. split; [reflexivity|].
  rewrite GridFacts.cell_eq_true.
  rewrite elem_of_getEmptyPositions. split; [done|]. split; [by intros -> | by intros [= ->]].
Qed.

(** *** The cells of a board *)

Lemma well_formed_new : well_formed new.
Proof.
  split; [done|]. unfold new, empty_board. simpl.
  repeat constructor.
Qed.

Lemma well_formed_invoke (m : method) (gb : t) :
  well_formed gb → well_formed (invoke m gb).
Proof.
  intros [Hlen Hcells]. destruct m as [index symbol|]; simpl.
  - unfold after.
    destruct (setMark_cases index symbol gb)
      as [[e ->] | [-> | (mark & -> & Hmark & _ & _ & ->)]]; try done.
    split; simpl.
    + by rewrite length_insert.
    + apply Forall_insert; [done|]. right. done.
  - apply well_formed_new.
Qed.

Lemma well_formed_run (calls : list method) (gb : t) :
  well_formed gb → well_formed (run calls gb).
Proof.
  revert gb. induction calls as [|m rest IH]; intros gb Hgb; [done|].
  simpl. by apply IH, well_formed_invoke.
Qed.

(** X7. Whatever sequence of [setMark] and [reset] calls is made on a
    new board, with whatever arguments, the board has nine cells and each
    holds [''], ['X'] or ['O']. *)
Theorem board_cells_are_marks (calls : list method) :
  well_formed (run calls new).
Proof. apply well_formed_run, well_formed_new. Qed.
End BoardMore.

(** * More about the game *)

Module GameMore.
Import Game Moves Course.
Local Open Scope list_scope.

Lemma accepted_iff (w : World) (index : value) :
  accepted (makeMove index w).1 = true
  ↔ _gameActive (this w) = true
    ∧ mover_has_mark (this w) = true
    ∧ Gameboard._isValidIndex index = true
    ∧ Gameboard.cell (_gameboard (this w)) (Gameboard.position index) = Some "".
Proof.
  unfold mover_has_mark.
  destruct (makeMove index w) as [r w'] eqn:E.
  apply MoveFacts.makeMove_step in E. simpl.
  destruct E as [Ha|Ha Hp|p Ha Hp Hi|p Ha Hp Hi Hsym|p Ha Hp Hi Hsym Hcell
                |p mark g Ha Hp Hi Hsym Hmark Hcell Ht Hg
                |p mark g Ha Hp Hi Hsym Hmark Hcell Ht Hg]; simpl.
  all: try rewrite Hp.
  all: try (split; [done | intros (? & ? & ? & ?); congruence]).
  all: split; [intros _|done]; repeat split; try done.
  all: rewrite Hsym; by destruct Hmark as [-> | ->].
Qed.

Lemma threw_iff (w : World) (index : value) :
  Marks.threw (makeMove index w).1 = true
  ↔ _gameActive (this w) = true
    ∧ (Gameboard._isValidIndex index = false ∨ mover_has_mark (this w) = false).
Proof.
  unfold mover_has_mark.
  destruct (makeMove index w) as [r w'] eqn:E.
  apply MoveFacts.makeMove_step in E. simpl.
  destruct E as [Ha|Ha Hp|p Ha Hp Hi|p Ha Hp Hi Hsym|p Ha Hp Hi Hsym Hcell
                |p mark g Ha Hp Hi Hsym Hmark Hcell Ht Hg
                |p mark g Ha Hp Hi Hsym Hmark Hcell Ht Hg]; simpl.
  all: try rewrite Hp.
  - split; [done | intros [? _]; congruence].
  - split; [intros _|done]. auto.
  - split; [intros _|done]. auto.
  - split; [intros _|done]. auto.
  - split; [done|]. intros [_ [?|?]]; congruence.
  - split; [done|]. rewrite Hsym. intros [_ [?|?]]; [congruence|].
    by destruct Hmark as [-> | ->].
  - split; [done|]. rewrite Hsym. intros [_ [?|?]]; [congruence|].
    by destruct Hmark as [-> | ->].
Qed.

Lemma unchanged_unless_accepted (w : World) (index : value) :
  accepted (makeMove index w).1 = false → (makeMove index w).2 = w.
Proof.
  destruct (makeMove index w) as [r w'] eqn:E.
  apply MoveFacts.makeMove_step in E. simpl.
  by destruct E.
Qed.

(** X8. When [makeMove(index)] is accepted, the cell at the index
    holds the symbol of the player who was to move, every other cell is
    what it was, the history has grown by exactly the entry of that move
    (player name and symbol, the index, the time of the call), and the
    players and the start time are untouched. *)
Theorem accepted_move_places_the_mark (w : World) (index : value) :
  accepted (makeMove index w).1 = true →
  ∃ p mark,
    getCurrentPlayer (this w) = Some p
    ∧ Player.symbol p = VStr mark
    ∧ let g' := this (makeMove index w).2 in
      Gameboard.cell (_gameboard g') (Gameboard.position index) = Some mark
      ∧ (∀ j, j ≠ Gameboard.position index →
              Gameboard.cell (_gameboard g') j = Gameboard.cell (_gameboard (this w)) j)
      ∧ _gameHistory g' = (_gameHistory (this w) ++ [entry_of p index (clock w 0)])%list
      ∧ _players g' = _players (this w)
      ∧ _startTime g' = _startTime (this w).
Proof.
  destruct (makeMove index w) as [r w'] eqn:E.
  apply MoveFacts.makeMove_step in E. simpl.
  destruct E as [Ha|Ha Hp|p Ha Hp Hi|p Ha Hp Hi Hsym|p Ha Hp Hi Hsym Hcell
                |p mark g Ha Hp Hi Hsym Hmark Hcell Ht ->
                |p mark g Ha Hp Hi Hsym Hmark Hcell Ht ->]; try done.
  all: intros _; exists p, mark; simpl; repeat split; try done.
  all: try (apply BoardMore.cell_insert_eq; by rewrite Hcell).
  all: intros j Hj; by apply BoardMore.cell_insert_ne.
Qed.

Lemma accepted_move_places_the_mark_witness :
  ∃ p mark,
    getCurrentPlayer (this Scenario.started) = Some p
    ∧ Player.symbol p = VStr mark
    ∧ let g' := this (makeMove (Scenario.at_index 4) Scenario.started).2 in
      Gameboard.cell (_gameboard g') (Gameboard.position (Scenario.at_index 4)) = Some mark
      ∧ (∀ j, j ≠ Gameboard.position (Scenario.at_index 4) →
              Gameboard.cell (_gameboard g') j
              = Gameboard.cell (_gameboard (this Scenario.started)) j)
      ∧ _gameHistory g'
        = (_gameHistory (this Scenario.started)
             ++ [entry_of p (Scenario.at_index 4) (clock Scenario.started 0)])%list
      ∧ _players g' = _players (this Scenario.started)
      ∧ _startTime g' = _startTime (this Scenario.started).
Proof.
  apply (accepted_move_places_the_mark Scenario.started (Scenario.at_index 4)).
  reflexivity.
Defined.

(** X9. Once a game is not active, no sequence of [makeMove] calls
    changes anything: board, history, player to move, time stamps and
    clock stay as they are. *)
Theorem ended_game_is_frozen (w : World) (indices : list value) :
  _gameActive (this w) = false → play indices w = w.
Proof.
  intros Hinactive. induction indices as [|index rest IH]; [done|].
  change (play (index :: rest) w) with (play rest (call (makeMove index) w)).
  unfold call. rewrite unchanged_unless_accepted; [exact IH|].
  apply not_true_is_false. rewrite accepted_iff. intros [? _]. congruence.
Qed.

Lemma ended_game_is_frozen_witness :
  play [Scenario.at_index 5; Scenario.at_index 6] Scenario.won = Scenario.won.
Proof.
  apply (ended_game_is_frozen Scenario.won [Scenario.at_index 5; Scenario.at_index 6]).
  reflexivity.
Defined.

(** X10. [makeMove(index)] throws exactly when the game is active and
    either the index is not an integer of [0,8] or the player to move is
    missing or holds a symbol other than ['X'] and ['O']; a call that throws
    leaves the game as it was.  It never throws on a game that is not
    active. *)
Theorem makeMove_throws_exactly_when (w : World) (index : value) :
  (Marks.threw (makeMove index w).1 = true
   ↔ _gameActive (this w) = true
     ∧ (Gameboard._isValidIndex index = false ∨ mover_has_mark (this w) = false))
  ∧ (Marks.threw (makeMove index w).1 = true → (makeMove index w).2 = w).
Proof.
  split; [apply threw_iff|].
  intros Hthrew. apply unchanged_unless_accepted.
  by destruct (makeMove index w).1.
Qed.

(** *** [validateMove] and [getPossibleMoves] *)

Lemma position_check (index : value) :
  negb (Number_isInteger index) || (integer_of index <? 0)%Z || (8 <? integer_of index)%Z
  = negb (Gameboard._isValidIndex index).
Proof.
  unfold Gameboard._isValidIndex.
  destruct (Number_isInteger index); simpl; [|done].
  rewrite negb_andb, Z.leb_antisym, Z.leb_antisym, !negb_involutive. done.
Qed.

Lemma validateMove_eq (w : World) (index : value) :
  validateMove index w
  = (Normal
       (if negb (_gameActive (this w)) then
          {| Validation.valid := false; Validation.error := Some "Game is not active" |}
        else if negb (Gameboard._isValidIndex index) then
          {| Validation.valid := false; Validation.error := Some "Invalid board position" |}
        else if Gameboard.cell_eq
                  (Gameboard.cell (_gameboard (this w)) (Gameboard.position index))
                  (Some "") then
          {| Validation.valid := true; Validation.error := None |}
        else
          {| Validation.valid := false;
             Validation.error := Some "Position already occupied" |}),
     w).
Proof.
  destruct w as [g c]. unfold validateMove, bind, read, gets, ret, on_gameboard. simpl.
  destruct (_gameActive g); simpl; [|done].
  rewrite position_check. unfold Gameboard.isEmpty.
  destruct (Gameboard._isValidIndex index); simpl; [|done].
  unfold gets. destruct g. simpl.
  by destruct (Gameboard.cell_eq _ _).
Qed.

(** X11. [validateMove(index)] never throws and never changes the
    game.  Its answer is valid exactly when it carries no error; every move
    [makeMove] accepts it declares valid; and when the player to move holds
    one of the two marks it is valid exactly when [makeMove(index)] is
    accepted. *)
Theorem validateMove_foretells_makeMove (w : World) (index : value) :
  ∃ v, validateMove index w = (Normal v, w)
       ∧ (Validation.valid v = true ↔ Validation.error v = None)
       ∧ (accepted (makeMove index w).1 = true → Validation.valid v = true)
       ∧ (mover_has_mark (this w) = true →
          Validation.valid v = accepted (makeMove index w).1).
Proof.
  rewrite validateMove_eq. eexists. split; [reflexivity|].
  pose proof (accepted_iff w index) as Hacc.
  destruct (_gameActive (this w)); simpl.
  2: { repeat split; try done.
       - intros H. apply Hacc in H as [? _]. done.
       - intros _. symmetry. apply not_true_is_false. intros H.
         apply Hacc in H as [? _]. done. }
  destruct (Gameboard._isValidIndex index); simpl.
  2: { repeat split; try done.
       - intros H. apply Hacc in H as (_ & _ & ? & _). done.
       - intros _. symmetry. apply not_true_is_false. intros H.
         apply Hacc in H as (_ & _ & ? & _). done. }
  destruct (Gameboard.cell_eq _ _) eqn:Hcell; simpl.
  - apply GridFacts.cell_eq_true in Hcell. repeat split; try done.
    intros Hmark. symmetry. by apply Hacc.
  - repeat split; try done.
    + intros H. apply Hacc in H as (_ & _ & _ & H).
      apply GridFacts.cell_eq_true in H. congruence.
    + intros _. symmetry. apply not_true_is_false. intros H.
      apply Hacc in H as (_ & _ & _ & H).
      apply GridFacts.cell_eq_true in H. congruence.
Qed.

Lemma index_of_position (n : nat) : Gameboard.position (index_of n) = n.
Proof. unfold Gameboard.position, index_of. simpl. apply Nat2Z.id. Qed.

Lemma index_of_valid (n : nat) : Gameboard._isValidIndex (index_of n) = true ↔ n < 9.
Proof.
  unfold Gameboard._isValidIndex, index_of. simpl.
  rewrite andb_true_iff, !Z.leb_le. lia.
Qed.

(** X12. On a board of nine cells and with a player to move who holds
    one of the two marks, the positions [getPossibleMoves()] lists are
    exactly those on which [makeMove] is accepted. *)
Theorem possible_moves_are_the_accepted_ones (w : World) (n : nat) :
  nine_cells (this w) →
  mover_has_mark (this w) = true →
  n ∈ getPossibleMoves (this w)
  ↔ accepted (makeMove (index_of n) w).1 = true.
Proof.
  intros Hnine Hmark. rewrite accepted_iff, index_of_position, index_of_valid.
  unfold getPossibleMoves. destruct (_gameActive (this w)); simpl.
  - rewrite BoardMore.elem_of_getEmptyPositions. split.
    + intros Hcell. repeat split; try done.
      unfold Gameboard.cell in Hcell. apply lookup_lt_Some in Hcell.
      unfold nine_cells in Hnine. lia.
    + by intros (_ & _ & _ & ?).
  - split; [by intros ?%elem_of_nil | by intros [? _]].
Qed.

Lemma possible_moves_are_the_accepted_ones_witness :
  4 ∈ getPossibleMoves (this Scenario.one_move)
  ↔ accepted (makeMove (index_of 4) Scenario.one_move).1 = true.
Proof.
  apply (possible_moves_are_the_accepted_ones Scenario.one_move 4); reflexivity.
Defined.

(** *** Starting over *)

(** X13. [restartGame()] leaves exactly the game and the clock that
    [startGame()] leaves, and so does [startGame()] after [resetGame()];
    [resetGame()] twice is [resetGame()] once.  A started game offers all
    nine positions, a reset game none. *)
Theorem restartGame_is_startGame (w : World) :
  restartGame w = startGame w
  ∧ call startGame (call resetGame w) = call startGame w
  ∧ this (call resetGame (call resetGame w)) = this (call resetGame w)
  ∧ getPossibleMoves (this (call startGame w)) = seq 0 9
  ∧ getPossibleMoves (this (call resetGame w)) = [].
Proof. repeat split. Qed.

(** *** The game is active while the board is open *)

Lemma terminal_board (g g' : t) :
  _gameboard g = _gameboard g' → terminal g = terminal g'.
Proof. unfold terminal. by intros ->. Qed.

Lemma open_makeMove (w : World) (index : value) :
  open (this w) → open (this (call (makeMove index) w)).
Proof.
  intros Hw. MoveFacts.move_cases w index; try done.
  - unfold open. simpl.
    rewrite (terminal_board _ (mark_placed index p mark w)) by done.
    by rewrite Hterminal.
  - unfold open. simpl.
    rewrite (terminal_board _ (mark_placed index p mark w)) by done.
    by rewrite Hterminal, Hactive.
Qed.

Lemma open_started (w0 : World) : open (this (call startGame w0)).
Proof. reflexivity. Qed.

Lemma open_played (w0 : World) (indices : list value) :
  open (this (played w0 indices)).
Proof.
  apply (MoveFacts.play_invariant open open_makeMove), open_started.
Qed.

(** X14. After [startGame()] and any sequence of [makeMove] calls, the
    game is active exactly when the board has no winner and is not full,
    and an active game always has a possible move. *)
Theorem active_while_board_is_open (w0 : World) (indices : list value) :
  let g := this (played w0 indices) in
  (_gameActive g = true
   ↔ Gameboard.checkWinner (_gameboard g) = None ∧ Gameboard.isFull (_gameboard g) = false)
  ∧ (_gameActive g = true → getPossibleMoves g ≠ []).
Proof.
  intros g. pose proof (open_played w0 indices) as Hopen. fold g in Hopen.
  unfold open, terminal in Hopen. rewrite GridFacts.checkWinner_truthy in Hopen.
  assert (_gameActive g = true
          ↔ Gameboard.checkWinner (_gameboard g) = None
            ∧ Gameboard.isFull (_gameboard g) = false) as Hiff.
  { rewrite Hopen, negb_true_iff, orb_false_iff, negb_false_iff, bool_decide_eq_true.
    done. }
  split; [exact Hiff|].
  intros Hactive. pose proof Hactive as [_ Hfull]%Hiff.
  unfold getPossibleMoves. rewrite Hactive. simpl.
  intros Hnone. apply BoardMore.isFull_no_empty in Hnone. congruence.
Qed.

(** *** The history is on the board *)

Lemma on_board_placed (w : World) (index : value) (p : Player.t) (mark : string)
    (g' : t) (e : HistoryEntry) :
  Gameboard.cell (_gameboard (this w)) (Gameboard.position index) = Some "" →
  _gameboard g' = _gameboard (mark_placed index p mark w) →
  on_board (this w) e → on_board g' e.
Proof.
  intros Hcell Hboard (m & Hsym & Hm & Hvalid & Hat).
  exists m. repeat split; try done.
  rewrite Hboard. simpl. rewrite BoardMore.cell_insert_ne; [done|].
  intros Heq. rewrite Heq, Hcell in Hat. injection Hat as <-.
  by destruct Hm.
Qed.

Lemma recorded_placed (w : World) (index : value) (p : Player.t) (mark : string) (g' : t) :
  Gameboard._isValidIndex index = true →
  Player.symbol p = VStr mark →
  mark = "X" ∨ mark = "O" →
  Gameboard.cell (_gameboard (this w)) (Gameboard.position index) = Some "" →
  _gameboard g' = _gameboard (mark_placed index p mark w) →
  _gameHistory g' = _gameHistory (mark_placed index p mark w) →
  recorded (this w) → recorded g'.
Proof.
  intros Hvalid Hsym Hmark Hcell Hboard Hhistory [Hall Hnodup].
  unfold recorded. rewrite Hhistory. simpl. split.
  - apply Forall_app. split.
    + eapply Forall_impl; [exact Hall|]. intros e He.
      by eapply on_board_placed.
    + apply Forall_singleton. exists mark. repeat split; try done.
      rewrite Hboard. simpl. apply BoardMore.cell_insert_eq. by rewrite Hcell.
  - rewrite fmap_app. apply NoDup_app. repeat split; [done| |apply NoDup_singleton].
    intros n (e & -> & He)%list_elem_of_fmap Hin.
    apply list_elem_of_singleton in Hin. simpl in Hin.
    rewrite Forall_forall in Hall. destruct (Hall e He) as (m & _ & Hm & _ & Hat).
    rewrite Hin, Hcell in Hat. injection Hat as <-. by destruct Hm.
Qed.

Lemma recorded_makeMove (w : World) (index : value) :
  recorded (this w) → recorded (this (call (makeMove index) w)).
Proof.
  intros Hw. MoveFacts.move_cases w index; try done.
  all: by eapply (recorded_placed w index p mark).
Qed.

Lemma recorded_started (w0 : World) : recorded (this (call startGame w0)).
Proof. split; simpl; constructor. Qed.

(** X15. After [startGame()] and any sequence of [makeMove] calls,
    every recorded move is on the board: its position is an integer of
    [0,8], its symbol is one of the two marks and the cell at its position
    holds that symbol; and no two recorded moves have the same position. *)
Theorem history_is_on_the_board (w0 : World) (indices : list value) :
  let g := this (played w0 indices) in
  Forall (on_board g) (_gameHistory g)
  ∧ NoDup ((fun e => Gameboard.position (position e)) <$> _gameHistory g).
Proof.
  apply (MoveFacts.play_invariant recorded recorded_makeMove), recorded_started.
Qed.

(** *** The winner made the last move *)

Lemma no_winner_no_line (gb : Gameboard.t) (line : nat * nat * nat) :
  Gameboard.checkWinner gb = None →
  line ∈ Gameboard._winningCombinations →
  Gameboard.lineComplete gb line = false.
Proof.
  intros Hnone Hin.
  pose proof (GridFacts.scans_agree gb Gameboard._winningCombinations) as Hscan.
  unfold Gameboard.checkWinner in Hnone.
  destruct (Gameboard.getWinningCombination_loop gb Gameboard._winningCombinations)
    as [line'|].
  - destruct Hscan as (_ & Hcomplete & Hcell).
    apply GridFacts.lineComplete_uniform in Hcomplete as (m & _ & Ha & _).
    congruence.
  - destruct Hscan as [Hall _]. by apply Hall.
Qed.

Lemma winner_is_new_mark (gb : Gameboard.t) (i : nat) (mark winner : string) :
  Gameboard.checkWinner gb = None →
  Gameboard.cell gb i = Some "" →
  Gameboard.checkWinner {| Gameboard._board := <[i := mark]> (Gameboard._board gb) |}
  = Some winner →
  winner = mark.
Proof.
  intros Hnone Hcell Hwinner.
  set (gb' := {| Gameboard._board := <[i := mark]> (Gameboard._board gb) |}) in *.
  pose proof (GridFacts.scans_agree gb' Gameboard._winningCombinations) as Hscan.
  unfold Gameboard.checkWinner in Hwinner.
  destruct (Gameboard.getWinningCombination_loop gb' Gameboard._winningCombinations)
    as [[[a b] c]|].
  2: { destruct Hscan as [_ Hnow]. rewrite Hnow in Hwinner. done. }
  destruct Hscan as (Hin & Hcomplete & Hfirst).
  pose proof Hcomplete as (m & Hm & Ha & Hb & Hc)%GridFacts.lineComplete_uniform.
  rewrite Hfirst, Ha in Hwinner. injection Hwinner as ->.
  cbn [fst snd] in Ha, Hb, Hc. subst gb'.
  assert (is_Some (Gameboard.cell gb i)) as Hsome by (by rewrite Hcell).
  destruct (decide (a = i)) as [->|Hai].
  { rewrite (BoardMore.cell_insert_eq gb i mark Hsome) in Ha. congruence. }
  destruct (decide (b = i)) as [->|Hbi].
  { rewrite (BoardMore.cell_insert_eq gb i mark Hsome) in Hb. congruence. }
  destruct (decide (c = i)) as [->|Hci].
  { rewrite (BoardMore.cell_insert_eq gb i mark Hsome) in Hc. congruence. }
  rewrite BoardMore.cell_insert_ne in Ha, Hb, Hc by done.
  pose proof (no_winner_no_line gb (a, b, c) Hnone Hin) as Hincomplete.
  assert (Gameboard.lineComplete gb (a, b, c) = true) as Htrue.
  { apply GridFacts.lineComplete_uniform. exists winner. by repeat split. }
  congruence.
Qed.

Lemma winner_not_empty (gb : Gameboard.t) (mark : string) :
  Gameboard.checkWinner gb = Some mark → mark ≠ "".
Proof.
  intros Hwinner ->.
  pose proof (GridFacts.checkWinner_truthy gb) as Ht.
  rewrite Hwinner in Ht. done.
Qed.

Lemma open_no_winner (g : t) :
  open g → _gameActive g = true → Gameboard.checkWinner (_gameboard g) = None.
Proof.
  unfold open, terminal. rewrite GridFacts.checkWinner_truthy. intros -> Hactive.
  apply negb_true_iff, orb_false_iff in Hactive as [Hnone _].
  by apply negb_false_iff, bool_decide_eq_true in Hnone.
Qed.

Lemma won_by_last_makeMove (w : World) (index : value) :
  open (this w) ∧ won_by_last (this w) →
  open (this (call (makeMove index) w)) ∧ won_by_last (this (call (makeMove index) w)).
Proof.
  intros [Hopen Hlast]. split; [by apply open_makeMove|].
  MoveFacts.move_cases w index; try done.
  all: intros winner Hwinner; simpl in Hwinner.
  all: apply (winner_is_new_mark _ _ _ _ (open_no_winner _ Hopen Hactive) Hcell)
         in Hwinner as ->.
  all: eexists; simpl; split; [apply last_snoc|]; done.
Qed.

Lemma won_by_last_played (w0 : World) (indices : list value) :
  won_by_last (this (played w0 indices)).
Proof.
  apply (MoveFacts.play_invariant (fun g => open g ∧ won_by_last g) won_by_last_makeMove).
  split; [apply open_started|]. intros mark Hmark. done.
Qed.

Lemma in_turn_played (w0 : World) (indices : list value) :
  in_turn (this (played w0 indices)).
Proof.
  apply (MoveFacts.play_invariant in_turn MoveFacts.in_turn_makeMove).
  unfold call. rewrite MoveFacts.startGame_eq. apply MoveFacts.in_turn_fresh.
Qed.

Lemma players_at_elem (ps : Player.t * Player.t) (i : Z) (p : Player.t) :
  players_at ps i = Some p → p = ps.1 ∨ p = ps.2.
Proof.
  unfold players_at. destruct (i =? 0)%Z; [intros [= <-]; by left|].
  destruct (i =? 1)%Z; [intros [= <-]; by right | done].
Qed.

(** X16. After [startGame()] and any sequence of [makeMove] calls, if
    [checkWinner()] returns a mark then the game is over, the mark is the
    symbol of the last recorded move, and the snapshot names as winning
    player a player of the game who holds that mark. *)
Theorem winner_made_the_last_move
    (w0 : World) (indices : list value) (mark : string) :
  let g := this (played w0 indices) in
  Gameboard.checkWinner (_gameboard g) = Some mark →
  _gameActive g = false
  ∧ (∃ e, last (_gameHistory g) = Some e ∧ symbol e = VStr mark)
  ∧ ∃ p, State.winningPlayer (getGameState g) = Some p
         ∧ Player.symbol p = VStr mark.
Proof.
  intros g Hwinner.
  pose proof (open_played w0 indices) as Hopen.
  pose proof (won_by_last_played w0 indices mark Hwinner) as (e & Hlast & Hsym).
  pose proof (in_turn_played w0 indices) as (_ & _ & Halt).
  fold g in Hopen, Hlast, Halt.
  assert (_gameActive g = false) as Hinactive.
  { destruct (_gameActive g) eqn:Ha; [|done].
    rewrite (open_no_winner g Hopen Ha) in Hwinner. done. }
  split; [done|]. split; [by exists e|].
  rewrite last_lookup in Hlast.
  destruct (Halt _ _ Hlast) as (p & Hp & _ & Hsymbol).
  pose proof (winner_not_empty _ _ Hwinner) as Hne.
  apply String.eqb_neq in Hne.
  unfold getGameState.
  cbn [State.winningPlayer Gameboard.getGameState Gameboard.State.winner].
  rewrite Hwinner. cbn [Gameboard.cell_truthy]. rewrite Hne. cbn [negb List.find].
  assert (symbol_is (Some mark) p = true) as Hmatch.
  { unfold symbol_is, strict_eq_string. rewrite <- Hsymbol, Hsym.
    apply String.eqb_refl. }
  assert (∀ q, symbol_is (Some mark) q = true → Player.symbol q = VStr mark) as Hsound.
  { intros q. unfold symbol_is, strict_eq_string.
    destruct (Player.symbol q); try done. by intros ->%String.eqb_eq. }
  apply players_at_elem in Hp as [-> | ->].
  - rewrite Hmatch. eexists. split; [reflexivity|]. by apply Hsound.
  - destruct (symbol_is (Some mark) (_players g).1) eqn:Hfirst.
    + eexists. split; [reflexivity|]. by apply Hsound.
    + rewrite Hmatch. eexists. split; [reflexivity|]. by apply Hsound.
Qed.

Lemma winner_made_the_last_move_witness :
  let g := this (played Scenario.fresh (Scenario.at_index <$> [0; 3; 1; 4; 2]%Z)) in
  _gameActive g = false
  ∧ (∃ e, last (_gameHistory g) = Some e ∧ symbol e = VStr "X")
  ∧ ∃ p, State.winningPlayer (getGameState g) = Some p
         ∧ Player.symbol p = VStr "X".
Proof.
  apply (winner_made_the_last_move
           Scenario.fresh (Scenario.at_index <$> [0; 3; 1; 4; 2]%Z) "X").
  reflexivity.
Defined.

(** *** Time stamps and statistics *)

Lemma stamped_makeMove (w : World) (index : value) :
  stamped (this w) → stamped (this (call (makeMove index) w)).
Proof.
  intros (Hstart & Hrunning & Hover). MoveFacts.move_cases w index; try done.
  - split; [done|]. split; [done|]. intros _. split; [by eexists|].
    simpl. intros Hnil. by apply app_nil in Hnil as [_ ?].
  - split; [done|]. split; [intros _; by apply Hrunning|].
    simpl. congruence.
Qed.

Lemma stamped_played (w0 : World) (indices : list value) :
  stamped (this (played w0 indices)).
Proof.
  apply (MoveFacts.play_invariant stamped stamped_makeMove).
  split; [by eexists|]. split; done.
Qed.

(** X17. After [startGame()] and any sequence of [makeMove] calls,
    [getGameStats()] reports the game complete exactly when it is no longer
    active, its duration is [null] exactly while the game is active and is
    the duration of the snapshot, and its number of moves and the number of
    empty positions add up to 9. *)
Theorem stats_tell_a_finished_game (w0 : World) (indices : list value) :
  let g := this (played w0 indices) in
  Stats.isComplete (getGameStats g) = negb (_gameActive g)
  ∧ (Stats.duration (getGameStats g) = None ↔ _gameActive g = true)
  ∧ Stats.duration (getGameStats g) = State.gameDuration (getGameState g)
  ∧ Stats.totalMoves (getGameStats g)
    + length (Gameboard.getEmptyPositions (_gameboard g)) = 9.
Proof.
  intros g.
  pose proof (stamped_played w0 indices) as ([start Hstart] & Hrunning & Hover).
  fold g in Hstart, Hrunning, Hover.
  assert (counted g) as Hcounted.
  { apply (MoveFacts.play_invariant counted MoveFacts.counted_makeMove).
    unfold call. rewrite MoveFacts.startGame_eq. apply MoveFacts.counted_fresh. }
  unfold getGameStats. simpl. rewrite Hstart.
  destruct (_gameActive g) eqn:Hactive; simpl.
  - rewrite (Hrunning eq_refl). repeat split; try done.
    rewrite GridFacts.length_getEmptyPositions. exact Hcounted.
  - destruct (Hover eq_refl) as [[e He] Hmoves]. rewrite He. repeat split; try done.
    + destruct (_gameHistory g); [done|]. done.
    + rewrite GridFacts.length_getEmptyPositions. exact Hcounted.
Qed.

Lemma monotone_shift (c : Clock) : monotone c → monotone (fun n => c (S n)).
Proof. intros Hc n. apply Hc. Qed.

Lemma sorted_snoc (start : Z) (times : list Z) (now : Z) :
  StronglySorted Z.le (start :: times) →
  (start <= now)%Z → Forall (fun t => (t <= now)%Z) times →
  StronglySorted Z.le (start :: (times ++ [now])).
Proof.
  intros Hsorted Hstart Hall.
  apply StronglySorted_cons in Hsorted as [Hfirst Hrest].
  apply StronglySorted_cons. split.
  - apply Forall_app. split; [done|]. by apply Forall_singleton.
  - apply StronglySorted_app_2; [|done|repeat constructor].
    intros t1 t2 Ht1 ->%list_elem_of_singleton.
    rewrite Forall_forall in Hall. by apply Hall.
Qed.

Lemma in_order_makeMove (w : World) (index : value) :
  stamped (this w) ∧ in_order w →
  stamped (this (call (makeMove index) w)) ∧ in_order (call (makeMove index) w).
Proof.
  intros [Hstamped Hordered]. split; [by apply stamped_makeMove|].
  destruct Hstamped as (_ & Hrunning & _).
  destruct Hordered as (Hmono & start & Hstart & Hnow & Hsorted & Hpast & Hend).
  MoveFacts.move_cases w index.
  1-5: by (split; [done|]; exists start).
  - pose proof (Hmono 0) as H01. pose proof (Hmono 1) as H12.
    split; [intros n; simpl; apply Hmono|].
    exists start. simpl. repeat split; try done.
    + lia.
    + rewrite fmap_app. apply sorted_snoc; [done..|].
      apply Forall_fmap. done.
    + apply Forall_app. split.
      * eapply Forall_impl; [exact Hpast|]. simpl. intros. lia.
      * apply Forall_singleton. simpl. lia.
    + injection H as <-. lia.
    + injection H as <-. lia.
    + injection H as <-. apply Forall_app. split.
      * eapply Forall_impl; [exact Hpast|]. simpl. intros. lia.
      * apply Forall_singleton. simpl. lia.
  - pose proof (Hmono 0) as H01.
    split; [intros n; simpl; apply Hmono|].
    exists start. simpl. repeat split; try done.
    + lia.
    + rewrite fmap_app. apply sorted_snoc; [done..|].
      apply Forall_fmap. done.
    + apply Forall_app. split.
      * eapply Forall_impl; [exact Hpast|]. simpl. intros. lia.
      * apply Forall_singleton. simpl. lia.
    + rewrite (Hrunning Hactive) in H. done.
    + rewrite (Hrunning Hactive) in H. done.
    + rewrite (Hrunning Hactive) in H. done.
Qed.

Lemma in_order_played (w0 : World) (indices : list value) :
  monotone (clock w0) → in_order (played w0 indices).
Proof.
  intros Hmono. unfold played.
  assert (stamped (this (call startGame w0)) ∧ in_order (call startGame w0)) as Hstart.
  { split; [split; [by eexists|split; done]|].
    split; [intros n; simpl; apply Hmono|].
    exists (clock w0 0). simpl.
    split; [done|]. split; [apply Hmono|]. split; [repeat constructor|].
    split; [constructor|]. done. }
  revert Hstart. generalize (call startGame w0).
  induction indices as [|index rest IH]; intros w Hw; [apply Hw|].
  apply IH. by apply in_order_makeMove.
Qed.

(** X18. With a clock that never runs backwards, after [startGame()]
    and any sequence of [makeMove] calls the time stamps of the recorded
    moves are in ascending order, none is before the start time or after
    the end time, and the duration of the snapshot is never negative. *)
Theorem times_are_in_order (w0 : World) (indices : list value) :
  monotone (clock w0) →
  let g := this (played w0 indices) in
  StronglySorted Z.le (timestamp <$> _gameHistory g)
  ∧ (∀ start e, _startTime g = Some start → e ∈ _gameHistory g →
                (start <= timestamp e)%Z)
  ∧ (∀ finish e, _endTime g = Some finish → e ∈ _gameHistory g →
                 (timestamp e <= finish)%Z)
  ∧ (∀ d, State.gameDuration (getGameState g) = Some d → (0 <= d)%Z).
Proof.
  intros Hmono g.
  destruct (in_order_played w0 indices Hmono)
    as (_ & start & Hstart & _ & Hsorted & _ & Hend).
  fold g in Hstart, Hsorted, Hend.
  apply StronglySorted_cons in Hsorted as [Hfirst Hsorted].
  repeat split; try done.
  - intros start' e Hstart' He. rewrite Hstart in Hstart'. injection Hstart' as <-.
    rewrite Forall_forall in Hfirst. apply Hfirst. by apply list_elem_of_fmap_2.
  - intros finish e Hfinish He. destruct (Hend _ Hfinish) as (_ & _ & Hall).
    rewrite Forall_forall in Hall. by apply Hall.
  - intros d. unfold getGameState. simpl. rewrite Hstart.
    destruct (_endTime g) as [finish|] eqn:Hfinish; [|done].
    intros [= <-]. destruct (Hend _ eq_refl) as (Hle & _). lia.
Qed.

Lemma times_are_in_order_witness :
  let g := this (played Scenario.fresh (Scenario.at_index <$> [0; 3; 1; 4; 2]%Z)) in
  StronglySorted Z.le (timestamp <$> _gameHistory g)
  ∧ (∀ start e, _startTime g = Some start → e ∈ _gameHistory g →
                (start <= timestamp e)%Z)
  ∧ (∀ finish e, _endTime g = Some finish → e ∈ _gameHistory g →
                 (timestamp e <= finish)%Z)
  ∧ (∀ d, State.gameDuration (getGameState g) = Some d → (0 <= d)%Z).
Proof.
  apply (times_are_in_order
           Scenario.fresh (Scenario.at_index <$> [0; 3; 1; 4; 2]%Z)).
  intros n. unfold Scenario.fresh, Scenario.clock0. simpl. lia.
Defined.

(** *** X and O in balance *)

Lemma count_mark_insert (mark new : string) (cells : list string) (i : nat) :
  cells !! i = Some "" → mark ≠ "" →
  Marks.count_mark mark (<[i := new]> cells)
  = Marks.count_mark mark cells + (if String.eqb new mark then 1 else 0).
Proof.
  revert i. induction cells as [|c rest IH]; intros i Hi Hmark; [done|].
  destruct i as [|i]; simpl in *.
  - injection Hi as ->.
    assert (String.eqb "" mark = false) as -> by (apply String.eqb_neq; congruence).
    lia.
  - rewrite (IH i Hi Hmark). lia.
Qed.

Lemma mover_mark (g : t) (p : Player.t) (mark : string) :
  x_then_o g → getCurrentPlayer g = Some p → Player.symbol p = VStr mark →
  (_currentPlayerIndex g = 0%Z ∧ mark = "X") ∨ (_currentPlayerIndex g = 1%Z ∧ mark = "O").
Proof.
  intros [Hx Ho]. unfold getCurrentPlayer, players_at.
  destruct (Z.eqb_spec (_currentPlayerIndex g) 0) as [H0|_].
  - intros [= <-] Hsym. left. split; [done | congruence].
  - destruct (Z.eqb_spec (_currentPlayerIndex g) 1) as [H1|_]; [|done].
    intros [= <-] Hsym. right. split; [done | congruence].
Qed.

Lemma balanced_placed (w : World) (index : value) (p : Player.t) (mark : string) (g' : t) :
  x_then_o (this w) → in_turn (this w) → balanced (this w) →
  _gameActive (this w) = true →
  getCurrentPlayer (this w) = Some p →
  Player.symbol p = VStr mark →
  Gameboard.cell (_gameboard (this w)) (Gameboard.position index) = Some "" →
  _gameboard g' = _gameboard (mark_placed index p mark w) →
  _gameHistory g' = _gameHistory (mark_placed index p mark w) →
  balanced g'.
Proof.
  intros Hxo (_ & Hparity & _) [k Hk] Hactive Hplayer Hsymbol Hcell Hboard Hhistory.
  specialize (Hparity Hactive).
  unfold balanced. rewrite Hboard, Hhistory. simpl.
  rewrite length_app. simpl.
  rewrite !count_mark_insert by done.
  destruct (mover_mark _ _ _ Hxo Hplayer Hsymbol) as [[Hi ->] | [Hi ->]]; simpl.
  - exists k. right. rewrite Hi in Hparity.
    destruct Hk as [(Hn & -> & ->) | (Hn & _ & _)]; [lia|].
    rewrite Hn in Hparity. exfalso. zify. Z.div_mod_to_equations. lia.
  - exists (k + 1). left. rewrite Hi in Hparity.
    destruct Hk as [(Hn & _ & _) | (Hn & -> & ->)]; [|lia].
    rewrite Hn in Hparity. exfalso. zify. Z.div_mod_to_equations. lia.
Qed.

Lemma balanced_makeMove (w : World) (index : value) :
  x_then_o (this w) ∧ in_turn (this w) ∧ balanced (this w) →
  x_then_o (this (call (makeMove index) w))
  ∧ in_turn (this (call (makeMove index) w))
  ∧ balanced (this (call (makeMove index) w)).
Proof.
  intros (Hxo & Hturn & Hbalanced).
  split; [|split; [by apply MoveFacts.in_turn_makeMove|]].
  { MoveFacts.move_cases w index; done. }
  MoveFacts.move_cases w index; try done.
  all: by eapply (balanced_placed w index p mark).
Qed.

(** X19. When player 1 holds X and player 2 holds O, after
    [startGame()] and any sequence of [makeMove] calls the board holds as
    many marks as there are recorded moves, and as many X as O or one X
    more. *)
Theorem marks_stay_in_balance (w0 : World) (indices : list value) :
  x_then_o (this w0) →
  let g := this (played w0 indices) in
  let xs := Marks.count_mark "X" (Gameboard._board (_gameboard g)) in
  let os := Marks.count_mark "O" (Gameboard._board (_gameboard g)) in
  xs + os = length (_gameHistory g) ∧ (xs = os ∨ xs = os + 1).
Proof.
  intros Hxo g xs os.
  assert (balanced g) as [k Hk].
  { apply (MoveFacts.play_invariant
             (fun g => x_then_o g ∧ in_turn g ∧ balanced g) balanced_makeMove).
    split; [exact Hxo|]. split.
    - unfold call. rewrite MoveFacts.startGame_eq. apply MoveFacts.in_turn_fresh.
    - exists 0. by left. }
  unfold xs, os. fold g in Hk. simpl in Hk.
  destruct Hk as [(-> & -> & ->) | (-> & -> & ->)]; lia.
Qed.

Lemma marks_stay_in_balance_witness :
  let g := this (played Scenario.fresh (Scenario.at_index <$> [0; 3; 1; 4; 2]%Z)) in
  let xs := Marks.count_mark "X" (Gameboard._board (_gameboard g)) in
  let os := Marks.count_mark "O" (Gameboard._board (_gameboard g)) in
  xs + os = length (_gameHistory g) ∧ (xs = os ∨ xs = os + 1).
Proof.
  apply (marks_stay_in_balance
           Scenario.fresh (Scenario.at_index <$> [0; 3; 1; 4; 2]%Z)).
  split; reflexivity.
Defined.

End GameMore.

(** * More about the players *)

Module PlayerMore.
Import Renaming.

Lemma assign_cases (s : setter) (p : Player.t) :
  (∃ e, assign s p = (Throw e, p))
  ∨ (∃ name, s = SetName (VStr name)
             ∧ Player.trim name ≠ ""
             ∧ assign s p = (Normal tt, {| Player._name := VStr (Player.trim name);
                                           Player._symbol := Player._symbol p |}))
  ∨ (∃ mark, s = SetSymbol (VStr mark)
             ∧ (mark = "X" ∨ mark = "O")
             ∧ assign s p = (Normal tt, {| Player._name := Player._name p;
                                           Player._symbol := VStr mark |})).
Proof.
  destruct s as [newName | newSymbol]; simpl.
  - unfold Player.set_name.
    destruct newName as [| |b|n|name|]; simpl; try (left; by eexists).
    destruct (String.length (Player.trim name) =? 0) eqn:Hlen; [left; by eexists|].
    right. left. exists name. repeat split; try done.
    intros Hnil. rewrite Hnil in Hlen. done.
  - unfold Player.set_symbol.
    destruct (includes ["X"; "O"] newSymbol) eqn:Hs; simpl; [|left; by eexists].
    right. right. apply GridFacts.includes_marks in Hs as [-> | ->]; eexists; eauto.
Qed.

Lemma valid_assign (s : setter) (p : Player.t) : valid p → valid (assign s p).2.
Proof.
  intros [Hname Hsymbol].
  destruct (assign_cases s p)
    as [[e ->] | [(name & _ & Hne & ->) | (mark & _ & Hmark & ->)]]; simpl.
  - done.
  - split; [by eexists | done].
  - split; [done|]. destruct Hmark as [-> | ->]; auto.
Qed.

(** X20. A player whose name is a non-empty string and whose symbol is
    ['X'] or ['O'] is still such a player after any sequence of calls of the
    two setters, with whatever arguments; and a setter that throws leaves
    the player as it was. *)
Theorem setters_keep_a_player_valid (setters : list setter) (p : Player.t) :
  valid p →
  valid (assign_all setters p)
  ∧ ∀ s, Marks.threw (assign s p).1 = true → (assign s p).2 = p.
Proof.
  intros Hvalid. split.
  - revert p Hvalid. induction setters as [|s rest IH]; intros p Hvalid; [done|].
    simpl. by apply IH, valid_assign.
  - intros s.
    destruct (assign_cases s p)
      as [[e ->] | [(name & _ & _ & ->) | (mark & _ & _ & ->)]]; done.
Qed.

Lemma setters_keep_a_player_valid_witness :
  valid (assign_all [SetName (VStr " Carol "); SetSymbol (VStr "Z"); SetName (VStr "")]
                    Scenario.alice)
  ∧ ∀ s, Marks.threw (assign s Scenario.alice).1 = true
         → (assign s Scenario.alice).2 = Scenario.alice.
Proof.
  apply (setters_keep_a_player_valid
           [SetName (VStr " Carol "); SetSymbol (VStr "Z"); SetName (VStr "")]
           Scenario.alice).
  split; [exists "Alice"; split; [reflexivity | discriminate] | left; reflexivity].
Defined.

End PlayerMore.

(** * The validators and the engine *)

Module ValidationMore.
Import ValidationUtils.

Lemma push_length (errors : list string) (e : string) :
  length (push errors e) = S (length errors).
Proof. unfold push. rewrite length_app. simpl. lia. Qed.

(** X21. [ValidationUtils.validateBoardPosition] accepts exactly the
    indices [Gameboard._isValidIndex] accepts; it is valid exactly when it
    lists no error, and invalid exactly when [setMark] on that position
    throws 'Invalid board index'. *)
Theorem validateBoardPosition_is_the_board_check
    (position symbol : value) (gb : Gameboard.t) :
  Result.valid (validateBoardPosition position) = Gameboard._isValidIndex position
  ∧ (Result.valid (validateBoardPosition position) = true
     ↔ Result.errors (validateBoardPosition position) = [])
  ∧ (Result.valid (validateBoardPosition position) = false
     ↔ (Gameboard.setMark position symbol gb).1 = Throw Gameboard.invalid_index).
Proof.
  unfold validateBoardPosition, Gameboard._isValidIndex, Gameboard.setMark.
  unfold Gameboard._isValidIndex.
  destruct (Number_isInteger position); simpl; [|by repeat split].
  rewrite !Z.ltb_antisym.
  destruct (0 <=? integer_of position)%Z; simpl; [|by repeat split].
  destruct (integer_of position <=? 8)%Z; simpl; [|by repeat split].
  repeat split; try done.
  destruct (includes ["X"; "O"] symbol) eqn:Hs; simpl; [|done].
  apply GridFacts.includes_marks in Hs as [-> | ->]; unfold bind, gets; simpl.
  all: by destruct (Gameboard.cell_eq _ _).
Qed.

(** X22. [ValidationUtils.validatePlayerSymbol] accepts exactly ['X']
    and ['O']; it is valid exactly when it lists no error, and exactly when
    the symbol setter of a player accepts the symbol and stores it. *)
Theorem validatePlayerSymbol_is_the_setter_check (symbol : value) (p : Player.t) :
  Result.valid (validatePlayerSymbol symbol) = includes ["X"; "O"] symbol
  ∧ (Result.valid (validatePlayerSymbol symbol) = true
     ↔ Result.errors (validatePlayerSymbol symbol) = [])
  ∧ (Result.valid (validatePlayerSymbol symbol) = true
     ↔ Player.set_symbol symbol p
       = (Normal tt, {| Player._name := Player._name p; Player._symbol := symbol |})).
Proof.
  unfold validatePlayerSymbol, Player.set_symbol.
  destruct (includes ["X"; "O"] symbol); simpl; by repeat split.
Qed.

(** X23. A name [ValidationUtils.validatePlayerName] declares valid
    is a string whose sanitized (trimmed) form has 2 to 20 characters, all
    of the allowed class, and none of the reserved words; no error is
    listed, and the name setter of a player accepts the name and stores
    exactly the sanitized name. *)
Theorem validated_name_is_accepted_by_the_setter (name : value) (p : Player.t) :
  NameResult.valid (validatePlayerName name) = true →
  let sanitized := NameResult.sanitized (validatePlayerName name) in
  name = VStr (string_of name)
  ∧ sanitized = Player.trim (string_of name)
  ∧ 2 <= String.length sanitized <= 20
  ∧ name_pattern sanitized = true
  ∧ _containsInappropriateContent sanitized = false
  ∧ NameResult.errors (validatePlayerName name) = []
  ∧ Player.set_name name p
    = (Normal tt, {| Player._name := VStr sanitized; Player._symbol := Player._symbol p |}).
Proof.
  unfold validatePlayerName, Player.set_name.
  destruct name as [| |b|n|s|]; simpl; try done.
  set (t := Player.trim s).
  destruct (String.length t =? 0) eqn:H0.
  { destruct (name_pattern t), (_containsInappropriateContent t); simpl;
      rewrite ?push_length; done. }
  destruct (String.length t <? 2) eqn:H2.
  { destruct (name_pattern t), (_containsInappropriateContent t); simpl;
      rewrite ?push_length; done. }
  destruct (20 <? String.length t) eqn:H20.
  { destruct (name_pattern t), (_containsInappropriateContent t); simpl;
      rewrite ?push_length; done. }
  destruct (name_pattern t), (_containsInappropriateContent t); simpl;
    rewrite ?push_length; try done.
  intros _. apply Nat.ltb_ge in H2, H20. repeat split; try done.
Qed.

Lemma validated_name_is_accepted_by_the_setter_witness :
  let sanitized := NameResult.sanitized (validatePlayerName (VStr "  Dana Lee ")) in
  VStr "  Dana Lee " = VStr (string_of (VStr "  Dana Lee "))
  ∧ sanitized = Player.trim (string_of (VStr "  Dana Lee "))
  ∧ 2 <= String.length sanitized <= 20
  ∧ name_pattern sanitized = true
  ∧ _containsInappropriateContent sanitized = false
  ∧ NameResult.errors (validatePlayerName (VStr "  Dana Lee ")) = []
  ∧ Player.set_name (VStr "  Dana Lee ") Scenario.bob
    = (Normal tt, {| Player._name := VStr sanitized;
                     Player._symbol := Player._symbol Scenario.bob |}).
Proof.
  apply (validated_name_is_accepted_by_the_setter (VStr "  Dana Lee ") Scenario.bob).
  reflexivity.
Defined.

End ValidationMore.

(** * More about sanitized input *)

Module SanitizeMore.
Import ValidationUtils Chars.

Lemma length_substring (m : nat) (s : string) :
  String.length (String.substring 0 m s) <= m.
Proof.
  revert s. induction m as [|m IH]; intros s.
  - by destruct s.
  - destruct s as [|c rest]; simpl; [lia|]. specialize (IH rest). lia.
Qed.

Lemma length_remove_angle_brackets (s : string) :
  String.length (remove_angle_brackets s) <= String.length s.
Proof.
  induction s as [|c rest IH]; simpl; [done|].
  destruct ((_ =? 60) || (_ =? 62)); simpl; lia.
Qed.

Lemma length_normalize_white_space (in_run : bool) (s : string) :
  String.length (normalize_white_space in_run s) <= String.length s.
Proof.
  revert in_run. induction s as [|c rest IH]; intros in_run; simpl; [done|].
  destruct (Player.is_white_space c).
  - destruct in_run; simpl; [specialize (IH true) | specialize (IH true)]; lia.
  - simpl. specialize (IH false). lia.
Qed.

Lemma has_char_remove_angle_brackets (n : nat) (s : string) :
  has_char n (remove_angle_brackets s) = true →
  n ≠ 60 ∧ n ≠ 62 ∧ has_char n s = true.
Proof.
  induction s as [|c rest IH]; simpl; [done|].
  destruct (Nat.eqb_spec (Ascii.nat_of_ascii c) 60) as [H60|H60]; simpl.
  { intros H. destruct (IH H) as (? & ? & ->). by rewrite orb_true_r. }
  destruct (Nat.eqb_spec (Ascii.nat_of_ascii c) 62) as [H62|H62]; simpl.
  { intros H. destruct (IH H) as (? & ? & ->). by rewrite orb_true_r. }
  destruct (Nat.eqb_spec (Ascii.nat_of_ascii c) n) as [Hn|Hn]; simpl.
  - intros _. subst n. done.
  - intros H. destruct (IH H) as (? & ? & ->). done.
Qed.

Lemma has_char_normalize_white_space (n : nat) (in_run : bool) (s : string) :
  has_char n (normalize_white_space in_run s) = true →
  n = 32
  ∨ (has_char n s = true ∧ ¬ (n = 9 ∨ n = 10 ∨ n = 11 ∨ n = 12 ∨ n = 13)).
Proof.
  revert in_run. induction s as [|c rest IH]; intros in_run;
    cbn [normalize_white_space has_char]; [done|].
  destruct (Player.is_white_space c) eqn:Hws.
  - assert (has_char n (normalize_white_space true rest) = true →
            n = 32 ∨ ((Ascii.nat_of_ascii c =? n) || has_char n rest = true
                      ∧ ¬ (n = 9 ∨ n = 10 ∨ n = 11 ∨ n = 12 ∨ n = 13))) as Hrest.
    { intros H. destruct (IH _ H) as [->|[-> ?]]; [by left|right].
      by rewrite orb_true_r. }
    destruct in_run; [exact Hrest|].
    cbn [has_char]. change (Ascii.nat_of_ascii (Ascii.ascii_of_nat 32)) with 32.
    destruct (Nat.eqb_spec 32 n) as [<-|Hn]; [by left|]. exact Hrest.
  - cbn [has_char]. destruct (Nat.eqb_spec (Ascii.nat_of_ascii c) n) as [Hn|Hn].
    + intros _. right. split; [done|]. subst n.
      unfold Player.is_white_space in Hws.
      rewrite !orb_false_iff, !Nat.eqb_neq in Hws. lia.
    + intros H. destruct (IH _ H) as [->|[-> ?]]; [by left|by right].
Qed.

(** X24. [ValidationUtils.sanitizeInput(input, maxLength)] returns at
    most [maxLength] characters, none of them ['<'] or ['>'] and none a tab,
    line feed, vertical tab, form feed or carriage return (white space
    comes out as single spaces); for an input that is not a string it
    returns ['']. *)
Theorem sanitizeInput_is_bounded_and_has_no_angle_bracket
    (input : value) (maxLength n : nat) :
  String.length (sanitizeInput input maxLength) <= maxLength
  ∧ has_char 60 (sanitizeInput input maxLength) = false
  ∧ has_char 62 (sanitizeInput input maxLength) = false
  ∧ (9 <= n <= 13 → has_char n (sanitizeInput input maxLength) = false)
  ∧ (is_string input = false → sanitizeInput input maxLength = "").
Proof.
  unfold sanitizeInput. destruct (is_string input); simpl; [|by repeat split; try lia].
  set (t := Player.trim (string_of input)).
  assert (∀ k, has_char k (normalize_white_space false
                             (remove_angle_brackets (String.substring 0 maxLength t)))
               = true → k ≠ 60 ∧ k ≠ 62 ∧ ¬ (9 <= k <= 13)) as Hchars.
  { intros k Hk. apply has_char_normalize_white_space in Hk as [->|[Hk Hws]].
    - lia.
    - apply has_char_remove_angle_brackets in Hk as (? & ? & _). lia. }
  repeat split.
  - etrans; [apply length_normalize_white_space|].
    etrans; [apply length_remove_angle_brackets|]. apply length_substring.
  - apply not_true_is_false. intros H. apply Hchars in H. lia.
  - apply not_true_is_false. intros H. apply Hchars in H. lia.
  - intros Hn. apply not_true_is_false. intros H. apply Hchars in H. lia.
  - done.
Qed.
End SanitizeMore.

(** * About books *)

Module BookMore.
Import Book Shelf.

Lemma updateRating_accepts (v : value) :
  is_not_null v
  && (negb (Number_isInteger v) || (integer_of v <? 1)%Z || (5 <? integer_of v)%Z)
  = false
  ↔ is_rating v.
Proof.
  unfold is_rating.
  destruct v as [| |b|[z| | |neg]|s|]; simpl; try (split; [done | intros [?|(z & ? & _)]; done]).
  - split; [by left | done].
  - rewrite orb_false_iff, !Z.ltb_ge. split.
    + intros [? ?]. right. exists z. split; [done | lia].
    + intros [?|(z' & [= <-] & ?)]; [done | lia].
Qed.

Lemma apply_cases (u : update) (b : t) :
  (∃ e, apply u b = (Throw e, b))
  ∨ ∃ b', apply u b = (Normal tt, b')
          ∧ id b' = id b ∧ title b' = title b ∧ author b' = author b
          ∧ pages b' = pages b ∧ dateAdded b' = dateAdded b
          ∧ (rating b' = rating b ∨ ∃ v, u = UpdateRating v ∧ is_rating v ∧ rating b' = v).
Proof.
  destruct u as [|v|v]; simpl.
  - right. eexists. split; [reflexivity|]. simpl. repeat split; auto.
  - unfold updateRating.
    destruct (is_not_null v && _) eqn:Hcheck.
    + left. by eexists.
    + right. eexists. split; [reflexivity|]. simpl. repeat split; try done.
      right. exists v. repeat split; try done. by apply updateRating_accepts.
  - right. eexists. split; [reflexivity|]. simpl. repeat split; auto.
Qed.

(** X25. A book whose rating is [null] or an integer from 1 to 5 keeps
    such a rating under any sequence of [toggleReadStatus], [updateRating]
    and [updateGenre] calls, and its id, title, author, pages and date stay
    what they were.  [updateRating] returns exactly on such a rating and
    throws on anything else, and a call that throws leaves the book as it
    was. *)
Theorem updates_keep_the_rating_valid (updates : list update) (b : t) :
  is_rating (rating b) →
  let b' := apply_all updates b in
  is_rating (rating b')
  ∧ id b' = id b ∧ title b' = title b ∧ author b' = author b
  ∧ pages b' = pages b ∧ dateAdded b' = dateAdded b
  ∧ (∀ v, Marks.threw (updateRating v b).1 = false ↔ is_rating v)
  ∧ (∀ u, Marks.threw (apply u b).1 = true → (apply u b).2 = b).
Proof.
  intros Hrating b'. unfold b'. clear b'.
  assert (is_rating (rating (apply_all updates b))
          ∧ id (apply_all updates b) = id b ∧ title (apply_all updates b) = title b
          ∧ author (apply_all updates b) = author b
          ∧ pages (apply_all updates b) = pages b
          ∧ dateAdded (apply_all updates b) = dateAdded b) as Hall.
  { revert b Hrating. induction updates as [|u rest IH]; intros b Hrating; [done|].
    simpl.
    destruct (apply_cases u b)
      as [[e ->] | (b1 & -> & Hid & Htitle & Hauthor & Hpages & Hdate & Hr)]; simpl.
    - by apply IH.
    - assert (is_rating (rating b1)) as H1.
      { destruct Hr as [->|(v & _ & ? & ->)]; done. }
      destruct (IH b1 H1) as (? & ? & ? & ? & ? & ?).
      repeat split; try done; congruence. }
  destruct Hall as (? & ? & ? & ? & ? & ?). repeat split; try done.
  - unfold updateRating. intros Hok.
    apply updateRating_accepts. by destruct (is_not_null v && _).
  - unfold updateRating. intros Hv. apply updateRating_accepts in Hv. by rewrite Hv.
  - intros u. destruct (apply_cases u b) as [[e ->] | (b1 & -> & _)]; done.
Qed.

Lemma updates_keep_the_rating_valid_witness :
  let updates := [UpdateRating (VNum (NInt 4)); UpdateRating (VNum (NInt 9));
                  ToggleReadStatus; UpdateGenre VUndefined] in
  let b' := apply_all updates novel in
  is_rating (rating b')
  ∧ id b' = id novel ∧ title b' = title novel ∧ author b' = author novel
  ∧ pages b' = pages novel ∧ dateAdded b' = dateAdded novel
  ∧ (∀ v, Marks.threw (updateRating v novel).1 = false ↔ is_rating v)
  ∧ (∀ u, Marks.threw (apply u novel).1 = true → (apply u novel).2 = novel).
Proof.
  apply (updates_keep_the_rating_valid
           [UpdateRating (VNum (NInt 4)); UpdateRating (VNum (NInt 9));
            ToggleReadStatus; UpdateGenre VUndefined] novel).
  left. reflexivity.
Defined.
End BookMore.

(** * About the event manager *)

Module EventMore.
Import EventManager Registry.
Local Open Scope list_scope.

Lemma has_eq {A : Type} (x : option A) :
  bool_decide (is_Some x) = match x with Some _ => true | None => false end.
Proof. by destruct x. Qed.

Lemma on_eq (event : string) (f : nat) (context : value) (m : t) :
  on event (Function f) context m
  = (Normal tt,
     {| _listeners :=
          <[event := get event m ++ [{| callback := f; context := or_null context |}]]>
            (_listeners m) |}).
Proof.
  unfold on, bind, gets, modify, ret, get. simpl.
  destruct (_listeners m !! event) as [l|] eqn:Hl; simpl.
  - rewrite ?has_eq. simpl. by rewrite Hl.
  - rewrite ?has_eq. simpl.
    rewrite lookup_insert_eq. simpl. by rewrite insert_insert_eq.
Qed.

Lemma off_eq (event : string) (callback : callback_arg) (m : t) :
  off event callback m
  = (Normal tt,
     match _listeners m !! event with
     | None => m
     | Some listeners =>
         let rest :=
           match findIndex (is_callback callback) listeners with
           | Some index => delete index listeners
           | None => listeners
           end in
         if length rest =? 0
         then {| _listeners := delete event (_listeners m) |}
         else {| _listeners := <[event := rest]> (_listeners m) |}
     end).
Proof.
  unfold off, bind, gets, modify, ret, get. simpl.
  destruct (_listeners m !! event) as [l|] eqn:Hl; simpl.
  - rewrite ?has_eq, ?Hl. simpl.
    destruct (length _ =? 0); simpl; [|done].
    by rewrite delete_insert_eq.
  - rewrite ?has_eq. done.
Qed.

Lemma findIndex_last (callback : callback_arg) (l : list Listener) (x : Listener) :
  (∀ y, y ∈ l → is_callback callback y = false) →
  is_callback callback x = true →
  findIndex (is_callback callback) (l ++ [x]) = Some (length l).
Proof.
  intros Hnone Hx. induction l as [|y rest IH]; simpl.
  - by rewrite Hx.
  - rewrite (Hnone y) by (apply elem_of_cons; by left).
    rewrite IH; [done|]. intros z Hz. apply Hnone, elem_of_cons. by right.
Qed.

Lemma delete_last (l : list Listener) (x : Listener) :
  delete (length l) (l ++ [x]) = l.
Proof. induction l as [|y rest IH]; simpl; [done | by rewrite IH]. Qed.

Lemma tidy_invoke (c : method) (m : t) : tidy m → tidy (invoke c m).2.
Proof.
  intros Htidy. destruct c as [event [f|v] context | event callback | [name|]]; cbn [invoke].
  - rewrite on_eq. simpl. intros e l; simpl.
    destruct (decide (event = e)) as [->|Hne].
    + rewrite lookup_insert_eq. intros [= <-]. by destruct (get e m).
    + rewrite lookup_insert_ne by done. apply Htidy.
  - done.
  - rewrite off_eq. simpl.
    destruct (_listeners m !! event) as [listeners|] eqn:Hl; [|done].
    simpl. destruct (length _ =? 0) eqn:Hlen.
    + intros e l; simpl. simpl.
      destruct (decide (event = e)) as [->|Hne].
      * by rewrite lookup_delete_eq.
      * rewrite lookup_delete_ne by done. apply Htidy.
    + intros e l; simpl. simpl.
      destruct (decide (event = e)) as [->|Hne].
      * rewrite lookup_insert_eq. intros [= <-] Hnil. by rewrite Hnil in Hlen.
      * rewrite lookup_insert_ne by done. apply Htidy.
  - unfold removeAllListeners. destruct (negb (String.eqb name "")); simpl.
    + intros e l; simpl. destruct (decide (name = e)) as [->|Hne].
      * by rewrite lookup_delete_eq.
      * rewrite lookup_delete_ne by done. apply Htidy.
    + intros e l; simpl. by rewrite lookup_empty.
  - intros e l; simpl. simpl. by rewrite lookup_empty.
Qed.

Lemma tidy_run (calls : list method) (m : t) : tidy m → tidy (run calls m).
Proof.
  revert m. induction calls as [|c rest IH]; intros m Hm; [done|].
  simpl. by apply IH, tidy_invoke.
Qed.

Lemma tidy_new : tidy new.
Proof. intros e l. unfold new. simpl. by rewrite lookup_empty. Qed.

(** X26. In an event manager reached from a new one by any sequence
    of [on], [off] and [removeAllListeners] calls, registering a function
    that is not yet registered for the event and then removing it with
    [off] gives back exactly the manager as it was, the event's entry
    removed again when the event had no listener. *)
Theorem off_undoes_a_fresh_on
    (calls : list method) (event : string) (f : nat) (context : value) :
  let m := run calls new in
  ¬ registered event f m →
  (off event (Function f) (on event (Function f) context m).2).2 = m.
Proof.
  intros m Hfresh.
  pose proof (tidy_run calls new tidy_new) as Htidy. fold m in Htidy.
  rewrite on_eq. simpl. rewrite off_eq. simpl. rewrite lookup_insert_eq.
  rewrite findIndex_last.
  2: { intros y Hy. simpl. apply Nat.eqb_neq. intros Hcb. apply Hfresh. by exists y. }
  2: { simpl. apply Nat.eqb_refl. }
  rewrite delete_last. destruct m as [listeners]. unfold get in *. simpl in *.
  destruct (listeners !! event) as [l|] eqn:Hl; simpl.
  - destruct l as [|x l']; [by apply Htidy in Hl|]. simpl.
    f_equal. rewrite insert_insert_eq. by apply insert_id.
  - f_equal. rewrite delete_insert_eq. by apply delete_id.
Qed.

Lemma off_undoes_a_fresh_on_witness :
  let m := run [On "move" (Function 1) VNull] new in
  (off "move" (Function 2) (on "move" (Function 2) VNull m).2).2 = m.
Proof.
  apply (off_undoes_a_fresh_on [On "move" (Function 1) VNull] "move" 2 VNull).
  intros (listener & Hin & Hcallback).
  vm_compute in Hin. apply list_elem_of_singleton in Hin as ->. discriminate.
Defined.

(** X27. [on] with a function adds one to [getListenerCount] of its
    event and [off] takes one away exactly when the callback is registered
    for the event; neither changes the count of any other event; [on] with
    a callback that is not a function throws and changes nothing; and
    [hasListeners] is [true] exactly when the count is positive. *)
Theorem listener_count_follows_on_and_off
    (m : t) (event other : string) (f : nat) (callback : callback_arg) (context v : value) :
  getListenerCount event (on event (Function f) context m).2
  = S (getListenerCount event m)
  ∧ (other ≠ event →
     getListenerCount other (on event (Function f) context m).2
     = getListenerCount other m
     ∧ getListenerCount other (off event callback m).2 = getListenerCount other m)
  ∧ getListenerCount event (off event callback m).2
    = match findIndex (is_callback callback) (get event m) with
      | Some _ => getListenerCount event m - 1
      | None => getListenerCount event m
      end
  ∧ on event (NotFunction v) context m
    = (Throw (Error "Callback must be a function"), m)
  ∧ hasListeners event m = (0 <? getListenerCount event m).
Proof.
  rewrite on_eq, off_eq. unfold getListenerCount, hasListeners, get. simpl.
  repeat split.
  - rewrite lookup_insert_eq. rewrite ?has_eq. simpl.
    rewrite length_app. simpl.
    destruct (_listeners m !! event) as [l|]; simpl.
    + rewrite ?has_eq. lia.
    + rewrite ?has_eq. done.
  - by rewrite lookup_insert_ne.
  - destruct (_listeners m !! event) as [l|]; simpl; [|done].
    destruct (length _ =? 0); simpl.
    + by rewrite lookup_delete_ne.
    + by rewrite lookup_insert_ne.
  - destruct (_listeners m !! event) as [l|] eqn:Hl; simpl.
    2: { rewrite Hl. rewrite ?has_eq. done. }
    rewrite ?has_eq.
    destruct (findIndex (is_callback callback) l) as [i|] eqn:Hi.
    + assert (i < length l) as Hlt.
      { clear Hl. revert i Hi. induction l as [|x l' IH]; intros i; simpl; [done|].
        destruct (is_callback callback x); [intros [= <-]; lia|].
        destruct (findIndex _ l') as [j|]; simpl; [|done].
        intros [= <-]. specialize (IH j eq_refl). lia. }
      assert (length (delete i l) = length l - 1) as Hdel.
      { apply length_delete. by apply lookup_lt_is_Some. }
      destruct (length (delete i l) =? 0) eqn:Hz; simpl.
      * rewrite lookup_delete_eq.
        rewrite ?has_eq.
        apply Nat.eqb_eq in Hz. lia.
      * rewrite lookup_insert_eq. rewrite ?has_eq.
        simpl. lia.
    + destruct (length l =? 0) eqn:Hz; simpl.
      * rewrite lookup_delete_eq.
        rewrite ?has_eq.
        apply Nat.eqb_eq in Hz. lia.
      * rewrite lookup_insert_eq. rewrite ?has_eq. done.
  - destruct (_listeners m !! event) as [l|]; simpl.
    + by rewrite ?has_eq.
    + by rewrite ?has_eq.
Qed.

(** X28. [removeAllListeners('')], like [removeAllListeners()]
    without argument, removes the listeners of every event (the empty name
    is falsy); with a non-empty name it removes the listeners of that event
    and of no other. *)
Theorem removeAllListeners_with_empty_name_clears_all
    (m : t) (name event : string) :
  (removeAllListeners (Some "") m).2 = new
  ∧ (removeAllListeners None m).2 = new
  ∧ (name ≠ "" →
     getListenerCount name (removeAllListeners (Some name) m).2 = 0
     ∧ (event ≠ name →
        getListenerCount event (removeAllListeners (Some name) m).2
        = getListenerCount event m)).
Proof.
  split; [done|]. split; [done|].
  intros Hname. unfold removeAllListeners.
  apply String.eqb_neq in Hname. rewrite Hname. simpl.
  unfold getListenerCount, get. simpl. split.
  - rewrite lookup_delete_eq. by rewrite ?has_eq.
  - intros Hne. by rewrite lookup_delete_ne.
Qed.

End EventMore.
